(** * lrrfeed: the LRR RSS feed updater

    A shallow embedding of [src/lrrfeed.py].  The module keeps, for each
    feed of the static catalogue [RSS_FEEDS], the latest entry seen and
    the time of the last refresh, and announces an entry whose "url"
    differs from the cached one.

    Conventions of the embedding.
    - The class attribute [LRRFeedParser.updater] is one dictionary shared
      by every instance: it is a field of the [World], not of the
      instance record.
    - Side effects on the outside (log records, messages handed to the
      client, HTTP requests) are appended to lists of the [World].
    - What the environment decides is an argument: the HTTP response seen
      by [get_latest] and the value read from [loop.time()].
    - [self.loop.time()] and [delay] are Python floats, carried as the
      rationals they stand for.  [auto_update_iter] adds them exactly;
      [poll_test] takes the rounding of the machine as an argument.
    - A refresh cycle (the body of [async with lock] in [update]) is run
      as one step: cycles of one feed never overlap, which is what the
      lock provides, so the lock carries no data here.  What may happen
      between the test of the polling loop and its cycle, while the
      lock is held by another cycle, is an argument of [poll_iter].
    - An exception that [get_latest] does not catch is an outcome of
      the fetch, [Escapes]; it leaves [update] at the fetch.
    - The polling tasks are records in the event loop's store.  As in
      asyncio, [Task.cancel()] only marks a task; [CancelledError]
      reaches the coroutine when the loop next runs it.
    - The entries of a [Body] have their guid, title and
      [published_parsed]; a first item that lacks one, or whose date
      [datetime] refuses, is the [Escapes] outcome. *)

From Stdlib Require Import QArith Lqa.
From Stdlib Require Import PrimFloat FloatOps SpecFloat Uint63.
From stdpp Require Import gmap strings list fin_maps pretty.

(** ** Data *)

(** [datetime.datetime(y, m, d, H, M, S)]: microsecond 0 and no tzinfo,
    as built by [get_latest] from [published_parsed[:6]]. *)
Record datetime := mk_datetime {
  year : nat; month : nat; day : nat;
  hour : nat; minute : nat; second : nat
}.

Fixpoint zeros (n : nat) : string :=
  match n with
  | O => ""
  | S k => "0" +:+ zeros k
  end.

(** ["%0<w>d"] on a natural number. *)
Definition zfill (w n : nat) : string :=
  let s := pretty n in zeros (w - String.length s) +:+ s.

(** [datetime.isoformat()] when microsecond is 0 and tzinfo is None:
    ["%04d-%02d-%02dT%02d:%02d:%02d"]. *)
Definition isoformat (d : datetime) : string :=
  zfill 4 (year d) +:+ "-" +:+ zfill 2 (month d) +:+ "-" +:+ zfill 2 (day d)
  +:+ "T" +:+
  zfill 2 (hour d) +:+ ":" +:+ zfill 2 (minute d) +:+ ":" +:+ zfill 2 (second d).

(** A value of [RSS_FEEDS]: [{"title": ..., "url": ...}]. *)
Module Feed.
Record t := mk { title : string; url : string }.
End Feed.

(** What [get_latest] returns: [{"url": ..., "title": ..., "time": ...}]. *)
Module Entry.
Record t := mk { url : string; title : string; time : datetime }.
End Entry.

(** An entry of the parsed feed, [feed.entries[i]]. *)
Record RawEntry := mk_raw {
  guid : string; raw_title : string; published_parsed : datetime
}.

(** The exceptions that matter here.  [OtherError] stands for any
    exception class the module never catches (AttributeError,
    TypeError, UnicodeDecodeError, ...), by its name. *)
Inductive exn :=
| KeyError (key : string)
| CancelledError
| OtherError (name : string).

(** What a fetch meets, from [aiohttp.request] to the dictionary built
    from [feed.entries[0]]:
    - [ClientError]: the request or [.text()] raises
      [aiohttp.errors.ClientError], the one exception [get_latest]
      catches;
    - [Body entries]: the body is parsed; the entries, if any, carry
      their guid, title and date;
    - [Escapes e]: an exception that [get_latest] does not catch: any
      other exception of the request or of [.text()], [CancelledError]
      thrown in at the [await], or the error of building the dictionary
      from a first item without guid, title or a valid
      [published_parsed]. *)
Inductive Response :=
| ClientError
| Body (entries : list RawEntry)
| Escapes (e : exn).

Definition RSS_FEEDS : list (string * Feed.t) :=
  [ ("video",   Feed.mk "LRR Video Feed"
                        "http://feeds.feedburner.com/Loadingreadyrun");
    ("podcast", Feed.mk "LRRcast Feed"
                        "http://loadingreadyrun.com/lrrcasts/feed/all") ].

(** [RSS_FEEDS.keys()] and [RSS_FEEDS.get(feed)]. *)
Definition feed_keys : list string := RSS_FEEDS.*1.

Fixpoint assoc {A} (k : string) (l : list (string * A)) : option A :=
  match l with
  | [] => None
  | (k', v) :: l' => if decide (k' = k) then Some v else assoc k l'
  end.

Definition rss_lookup (feed : string) : option Feed.t := assoc feed RSS_FEEDS.

(** [asyncio.Lock()]: see the conventions above. *)
Inductive Lock := NewLock.

(** A value of [updater]: [{"task", "lock", "last", "latest"}].  The task
    is a handle into the event loop's tasks. *)
Record FeedState := mk_state {
  task : nat;
  lock : Lock;
  last : Q;
  latest : option Entry.t
}.

(** The instance attributes set by [__init__]. *)
Record LRRFeedParser := mk_parser {
  delay : Q;
  client : nat
}.

(** A task made by [loop.create_task(self.auto_update(feed))].
    [must_cancel] is set by [Task.cancel()]; [finished] is set once the
    coroutine has returned. *)
Record Task := mk_task {
  owner : LRRFeedParser;
  task_feed : string;
  must_cancel : bool;
  finished : bool
}.

Inductive Level := DEBUG | INFO | WARNING | ERROR.

Record LogRecord := mk_log { level : Level; message : string }.

(** Calls received by a client object. *)
Inductive Sent :=
| Privmsg (target msg : string)
| Announce (msg : string).

Record World := mk_world {
  updater : gmap string FeedState;
  tasks : list Task;
  log : list LogRecord;
  outbox : list (nat * Sent);
  requests : list string
}.

Definition with_updater (u : gmap string FeedState) (w : World) : World :=
  mk_world u (tasks w) (log w) (outbox w) (requests w).
Definition with_tasks (t : list Task) (w : World) : World :=
  mk_world (updater w) t (log w) (outbox w) (requests w).
Definition with_log (l : list LogRecord) (w : World) : World :=
  mk_world (updater w) (tasks w) l (outbox w) (requests w).
Definition with_outbox (o : list (nat * Sent)) (w : World) : World :=
  mk_world (updater w) (tasks w) (log w) o (requests w).
Definition with_requests (r : list string) (w : World) : World :=
  mk_world (updater w) (tasks w) (log w) (outbox w) r.

(** ** Effects: state and exceptions *)

Inductive Result (A : Type) :=
| Ok (a : A)
| Raise (e : exn).
Arguments Ok {A} a.
Arguments Raise {A} e.

Definition M (A : Type) : Type := World -> Result A * World.

Definition ret {A} (a : A) : M A := fun w => (Ok a, w).

Definition bind {A B} (f : A -> M B) (m : M A) : M B :=
  fun w => match m w with
           | (Ok a, w') => f a w'
           | (Raise e, w') => (Raise e, w')
           end.

(** stdpp's notations [x ← m; k] and [m;; k] for [bind]. *)
#[global] Instance M_ret : MRet M := @ret.
#[global] Instance M_bind : MBind M := @bind.

Definition raise {A} (e : exn) : M A := fun w => (Raise e, w).

Definition result_of {A} (m : M A) (w : World) : Result A := fst (m w).
Definition world_of {A} (m : M A) (w : World) : World := snd (m w).

Definition modify (f : World -> World) : M unit := fun w => (Ok tt, f w).

(** [self.logger.<level>(message)] *)
Definition logger (l : Level) (s : string) : M unit :=
  modify (fun w => with_log (log w ++ [mk_log l s]) w).

(** [feed in self.updater] *)
Definition in_updater (feed : string) : M bool :=
  fun w => (Ok (bool_decide (is_Some (updater w !! feed))), w).

(** [self.updater[feed]] *)
Definition updater_get (feed : string) : M FeedState :=
  fun w => match updater w !! feed with
           | Some fs => (Ok fs, w)
           | None => (Raise (KeyError feed), w)
           end.

(** [self.updater[feed]["last"] = now] *)
Definition set_last (feed : string) (now : Q) : M unit :=
  fs ← updater_get feed;
  modify (fun w => with_updater
    (<[feed := mk_state (task fs) (lock fs) now (latest fs)]> (updater w)) w).

(** [self.updater[feed]["latest"] = entry] *)
Definition set_latest (feed : string) (entry : option Entry.t) : M unit :=
  fs ← updater_get feed;
  modify (fun w => with_updater
    (<[feed := mk_state (task fs) (lock fs) (last fs) entry]> (updater w)) w).

(** [RSS_FEEDS[feed]] *)
Definition rss_get (feed : string) : M Feed.t :=
  match rss_lookup feed with
  | Some d => mret d
  | None => raise (KeyError feed)
  end.

(** [await self.client.privmsg(target, msg)] and
    [await self.client.announce(msg)] *)
Definition client_privmsg (c : nat) (target msg : string) : M unit :=
  modify (fun w => with_outbox (outbox w ++ [(c, Privmsg target msg)]) w).
Definition client_announce (c : nat) (msg : string) : M unit :=
  modify (fun w => with_outbox (outbox w ++ [(c, Announce msg)]) w).

(** [aiohttp.request("get", feed_url, ...)]: the request is recorded. *)
Definition http_get (feed_url : string) : M unit :=
  modify (fun w => with_requests (requests w ++ [feed_url]) w).

(** ** The operations of [LRRFeedParser] *)

(** The dictionary [get_latest] builds from [feed.entries[0]]. *)
Definition entry_of (e : RawEntry) : Entry.t :=
  Entry.mk (guid e) (raw_title e) (published_parsed e).

(** [get_latest(feed_url)], on the response the network gives. *)
Definition get_latest (feed_url : string) (resp : Response)
  : M (option Entry.t) :=
  logger DEBUG ("Retrieving latest entry for " +:+ feed_url +:+ ".");;
  http_get feed_url;;
  match resp with
  | ClientError =>
      logger ERROR ("Exception raised when updating RSS feed for "
                    +:+ feed_url +:+ ".");;
      mret None
  | Body [] =>
      logger WARNING ("RSS feed " +:+ feed_url
                      +:+ " did not provide any entries.");;
      mret None
  | Body (e :: _) =>
      mret (Some (entry_of e))
  | Escapes e => raise e
  end.

(** Truth value of the [target] argument: [None] and [""] are false. *)
Definition truthy (target : option string) : bool :=
  match target with
  | Some s => negb (bool_decide (s = ""))
  | None => false
  end.

Definition entry_msg (d : Feed.t) (entry : Entry.t) : string :=
  Feed.title d +:+ ": " +:+ Entry.title entry +:+ " (" +:+ Entry.url entry
  +:+ ") [" +:+ isoformat (Entry.time entry) +:+ "Z]".

(** [announce(self, feed, *, target=None)] *)
Definition announce (self : LRRFeedParser) (feed : string)
    (target : option string) : M unit :=
  tracked ← in_updater feed;
  if negb tracked || negb (bool_decide (is_Some (rss_lookup feed))) then
    logger WARNING ("Cannot announce unknown RSS feed " +:+ feed +:+ ".")
  else
    fs ← updater_get feed;
    match latest fs with
    | None => mret tt
    | Some entry =>
        d ← rss_get feed;
        match target with
        | Some t =>
            if truthy target then client_privmsg (client self) t (entry_msg d entry)
            else client_announce (client self) (entry_msg d entry)
        | None => client_announce (client self) (entry_msg d entry)
        end
    end.

(** [update(self, feed, *, announce=True)]; [resp] is what the fetch
    meets and [now] what [self.loop.time()] reads after it. *)
Definition update (self : LRRFeedParser) (feed : string)
    (announce_flag : bool) (resp : Response) (now : Q) : M unit :=
  tracked ← in_updater feed;
  if negb tracked || negb (bool_decide (is_Some (rss_lookup feed))) then
    logger WARNING ("Cannot update unknown RSS feed " +:+ feed +:+ ".")
  else
    _ ← updater_get feed;
    logger DEBUG ("Running update for RSS feed " +:+ feed +:+ ".");;
    d ← rss_get feed;
    new_entry ← get_latest (Feed.url d) resp;
    set_last feed now;;
    match new_entry with
    | None =>
        logger ERROR ("Update for RSS feed " +:+ feed
                      +:+ " did not complete successfully.")
    | Some new =>
        fs ← updater_get feed;
        let old_entry := latest fs in
        set_latest feed (Some new);;
        match old_entry with
        | None =>
            logger INFO ("Detected first entry for RSS feed " +:+ feed +:+ ".")
        | Some old =>
            if bool_decide (Entry.url old ≠ Entry.url new) then
              logger INFO ("Detected new entry for RSS feed " +:+ feed +:+ ".");;
              if announce_flag then announce self feed None else mret tt
            else mret tt
        end
    end.

(** [self.loop.create_task(self.auto_update(feed))]: the new task is
    registered with the event loop and its handle returned; the
    coroutine does not run before the loop is given control. *)
Definition create_task (self : LRRFeedParser) (feed : string) : M nat :=
  ts ← (fun w => (Ok (tasks w), w));
  modify (with_tasks (ts ++ [mk_task self feed false false]));;
  mret (length ts).

(** [task.cancel()]: a request.  Nothing is thrown into the coroutine
    before the event loop runs it again. *)
Definition request_cancel (t : Task) : Task :=
  if finished t then t
  else mk_task (owner t) (task_feed t) true (finished t).

Definition task_cancel (handle : nat) : M unit :=
  modify (fun w => with_tasks (alter request_cancel handle (tasks w)) w).

(** [del self.updater[feed]] *)
Definition updater_del (feed : string) : M unit :=
  _ ← updater_get feed;
  modify (fun w => with_updater (delete feed (updater w)) w).

(** The body of the loop of [start], over the keys of the catalogue. *)
Fixpoint start_feeds (self : LRRFeedParser) (keys : list string) : M unit :=
  match keys with
  | [] => mret tt
  | feed :: keys' =>
      tracked ← in_updater feed;
      (if negb tracked then
         handle ← create_task self feed;
         modify (fun w => with_updater
           (<[feed := mk_state handle NewLock 0%Q None]> (updater w)) w)
       else
         logger WARNING ("Automatic update for RSS feed " +:+ feed
                         +:+ " is already running."));;
      start_feeds self keys'
  end.

(** [start(self)] *)
Definition start (self : LRRFeedParser) : M unit :=
  start_feeds self feed_keys.

(** The body of the loop of [stop]. *)
Fixpoint stop_feeds (self : LRRFeedParser) (keys : list string) : M unit :=
  match keys with
  | [] => mret tt
  | feed :: keys' =>
      tracked ← in_updater feed;
      (if (tracked : bool) then
         fs ← updater_get feed;
         task_cancel (task fs);;
         updater_del feed
       else
         logger WARNING ("Automatic update for RSS feed " +:+ feed
                         +:+ " is not running."));;
      stop_feeds self keys'
  end.

(** [stop(self)]: an ordinary function; it has no [await]. *)
Definition stop (self : LRRFeedParser) : M unit :=
  stop_feeds self feed_keys;;
  logger INFO "Waiting for automatic update to finish.".

(** One iteration of the event loop, as far as cancellation goes:
    [CancelledError] is thrown into every task that was asked to stop,
    and the task ends.  The store knows nothing of how far a coroutine
    has run, so nothing is logged here: a task cancelled before it
    first runs logs nothing, and the record of one cancelled later is
    written by [auto_update] below. *)
Definition deliver (t : Task) : Task :=
  if must_cancel t && negb (finished t) then
    mk_task (owner t) (task_feed t) (must_cancel t) true
  else t.

Definition loop_run_once : M unit :=
  modify (fun w => with_tasks (deliver <$> tasks w) w).

(** What one iteration of [while True] in [auto_update] did. *)
Inductive LoopAction :=
| Slept (naptime : Q)
| Refreshed.

(** What the environment supplies to one iteration: the clock read at
    the top of the loop and, should a refresh run, the response to the
    fetch and the clock read after it. *)
Record Tick := mk_tick {
  tick_now : Q;
  tick_resp : Response;
  tick_after : Q
}.

(** One iteration of the loop of [auto_update], in the simplest
    setting: sums are exact and nothing else holds the lock, so the
    cycle follows the test at once.  [poll_test] and [poll_iter] below
    drop both assumptions. *)
Definition auto_update_iter (self : LRRFeedParser) (feed : string)
    (tk : Tick) : M LoopAction :=
  fs ← updater_get feed;
  let now := tick_now tk in
  let nxt := (last fs + delay self)%Q in
  if Qlt_le_dec now nxt then
    let naptime := ((1 # 10) + (nxt - now))%Q in
    mret (Slept naptime)
  else
    update self feed true (tick_resp tk) (tick_after tk);;
    mret Refreshed.

(** The iterations of the loop along a schedule. *)
Fixpoint auto_update_loop (self : LRRFeedParser) (feed : string)
    (sched : list Tick) : M (list LoopAction) :=
  match sched with
  | [] => mret []
  | tk :: sched' =>
      a ← auto_update_iter self feed tk;
      acts ← auto_update_loop self feed sched';
      mret (a :: acts)
  end.

(** [try: m  except asyncio.CancelledError: handler] *)
Definition except_cancelled {A} (m : M A) (handler : M A) : M A :=
  fun w => match m w with
           | (Raise CancelledError, w') => handler w'
           | r => r
           end.

(** [auto_update(self, feed)].  The loop is endless: it is left only by
    an exception.  The schedule holds the iterations that run to their
    end; then [CancelledError] arrives while the loop sleeps.  An
    iteration whose fetch meets [Escapes e] throws [e] out of the loop
    before the schedule is over, and a cancellation that arrives during
    a fetch is the outcome [Escapes CancelledError] of that fetch.
    [CancelledError] is the only exception the handler takes. *)
Definition auto_update (self : LRRFeedParser) (feed : string)
    (sched : list Tick) : M unit :=
  logger INFO ("Starting automatic update for RSS feed " +:+ feed +:+ ".");;
  except_cancelled
    (auto_update_loop self feed sched;; raise CancelledError)
    (logger INFO ("Automatic update for RSS feed " +:+ feed
                  +:+ " was cancelled.")).

(** ** The arithmetic of the clock, and the test apart from the cycle *)

(** [loop.time()], [last] and [delay] are binary64 floats.  A finite
    float is a rational, and the model carries that rational, so the
    comparison [nxt > now] is the one of [Q].  Sums and differences are
    rounded by the machine: [Rounding] holds its addition and
    subtraction on such rationals.  What is proved for every [Rounding]
    holds for binary64. *)
Record Rounding := mk_rounding {
  fadd : Q -> Q -> Q;
  fsub : Q -> Q -> Q
}.

(** No rounding: what binary64 does where the results are floats
    themselves, as on integers of moderate size. *)
Definition exact : Rounding := mk_rounding Qplus Qminus.

(** The rational a finite float stands for, and the float nearest to a
    rational whose numerator and denominator fit 63 bits. *)
Definition Q_of_float (f : float) : Q :=
  match Prim2SF f with
  | S754_finite s m e =>
      let v := if (0 <=? e)%Z then inject_Z (Z.pos m * 2 ^ e)
               else Qmake (Z.pos m) (Pos.pow 2 (Z.to_pos (- e))) in
      if s then Qopp v else v
  | _ => 0%Q
  end.

Definition float_of_Q (q : Q) : float :=
  let a := (of_uint63 (Uint63.of_Z (Z.abs (Qnum q)))
            / of_uint63 (Uint63.of_Z (Z.pos (Qden q))))%float in
  if (Qnum q <? 0)%Z then (- a)%float else a.

(** The addition and subtraction of binary64, on floats given as
    rationals. *)
Definition binary64 : Rounding :=
  mk_rounding
    (fun x y => Q_of_float (float_of_Q x + float_of_Q y)%float)
    (fun x y => Q_of_float (float_of_Q x - float_of_Q y)%float).

(** The float written [0.1] in the source: 0x1.999999999999ap-4. *)
Definition float_tenth : Q := 3602879701896397 # 36028797018963968.

(** What the test at the top of the loop decides. *)
Inductive PollDecision :=
| Nap (naptime : Q)
| RunCycle.

(** The test of [auto_update], from [now = self.loop.time()] to
    [if nxt > now]: one step of the coroutine, with no [await] in it.
    [now] is the clock reading. *)
Definition poll_test (r : Rounding) (self : LRRFeedParser) (feed : string)
    (now : Q) : M PollDecision :=
  fs ← updater_get feed;
  let nxt := fadd r (last fs) (delay self) in
  if Qlt_le_dec now nxt then
    let naptime := fadd r float_tenth (fsub r nxt now) in
    mret (Nap naptime)
  else mret RunCycle.




(** ** Sample worlds *)

Definition world0 : World := mk_world ∅ [] [] [] [].
Definition bot : LRRFeedParser := mk_parser 300 7.
Definition t0 : datetime := mk_datetime 2015 1 1 0 0 0.
Definition t5 : datetime := mk_datetime 2015 1 1 0 5 0.
Definition video : Feed.t :=
  Feed.mk "LRR Video Feed" "http://feeds.feedburner.com/Loadingreadyrun".

(** After [start()]. *)
Definition w_started : World := world_of (start bot) world0.
Definition fs_started : FeedState := mk_state 0 NewLock 0 None.

(** After a first refresh of "video" at time 10 that saw entry "v1". *)
Definition ep1 : RawEntry := mk_raw "v1" "Ep1" t0.
Definition w_cached : World :=
  world_of (update bot "video" true (Body [ep1]) 10) w_started.
Definition fs_cached : FeedState := mk_state 0 NewLock 10 (Some (entry_of ep1)).

(** A later entry, and the entry "v1" fetched again under another title
    and time. *)
Definition ep2 : RawEntry := mk_raw "v2" "Ep2" t5.
Definition ep1' : RawEntry := mk_raw "v1" "Ep1 (updated desc)" t5.

(** ** Vocabulary of the statements *)

(** The warning of [start] for a feed that is tracked already. *)
Definition log_already_running (feed : string) : LogRecord :=
  mk_log WARNING ("Automatic update for RSS feed " +:+ feed
                  +:+ " is already running.").


(** The two records every cycle logs first. *)
Definition log_running (feed : string) : LogRecord :=
  mk_log DEBUG ("Running update for RSS feed " +:+ feed +:+ ".").
Definition log_retrieving (feed_url : string) : LogRecord :=
  mk_log DEBUG ("Retrieving latest entry for " +:+ feed_url +:+ ".").

(** The world a refresh cycle leaves: the feed's state holds the new
    timer and [latest'], the log and the outbox have grown, one request
    went out; the rest is as before. *)
Definition refreshed (feed : string) (d : Feed.t) (now : Q) (fs : FeedState)
    (latest' : option Entry.t) (logs : list LogRecord)
    (out : list (nat * Sent)) (w : World) : World :=
  mk_world (<[feed := mk_state (task fs) (lock fs) now latest']> (updater w))
           (tasks w)
           (log w ++ log_running feed :: log_retrieving (Feed.url d) :: logs)
           (outbox w ++ out)
           (requests w ++ [Feed.url d]).

(** [sub] occurs in [s]. *)
Definition contains (sub s : string) : Prop :=
  exists p q, s = p +:+ sub +:+ q.

(** The state [start] gives a feed: task handle [h], timer 0, nothing
    cached. *)
Definition fresh_state (h : nat) : FeedState := mk_state h NewLock 0 None.

(** The warning of [stop] for a feed that is not tracked, and its last
    record. *)
Definition log_not_running (feed : string) : LogRecord :=
  mk_log WARNING ("Automatic update for RSS feed " +:+ feed
                  +:+ " is not running.").
Definition log_waiting : LogRecord :=
  mk_log INFO "Waiting for automatic update to finish.".


(** ** Running the monad *)

Lemma bind_run {A B} (m : M A) (f : A -> M B) w :
  (m ≫= f) w = match m w with
               | (Ok a, w') => f a w'
               | (Raise e, w') => (Raise e, w')
               end.
Proof. reflexivity. Qed.

Lemma in_updater_run feed w :
  in_updater feed w = (Ok (bool_decide (is_Some (updater w !! feed))), w).
Proof. reflexivity. Qed.

Lemma updater_get_run feed fs w :
  updater w !! feed = Some fs -> updater_get feed w = (Ok fs, w).
Proof. intros H. unfold updater_get. by rewrite H. Qed.

Lemma rss_get_run feed d w :
  rss_lookup feed = Some d -> rss_get feed w = (Ok d, w).
Proof. intros H. unfold rss_get. by rewrite H. Qed.

Lemma tracked_guard feed fs d w :
  updater w !! feed = Some fs -> rss_lookup feed = Some d ->
  negb (bool_decide (is_Some (updater w !! feed)))
  || negb (bool_decide (is_Some (rss_lookup feed))) = false.
Proof.
  intros -> ->. rewrite !bool_decide_eq_true_2; [done | eauto | eauto].
Qed.

Lemma untracked_guard feed w :
  updater w !! feed = None \/ rss_lookup feed = None ->
  negb (bool_decide (is_Some (updater w !! feed)))
  || negb (bool_decide (is_Some (rss_lookup feed))) = true.
Proof.
  intros [-> | ->].
  - rewrite bool_decide_eq_false_2; [done | by intros [? ?]].
  - rewrite (bool_decide_eq_false_2 (is_Some None)); [|by intros [? ?]].
    by rewrite orb_true_r.
Qed.

Lemma bind_ok {A B} (m : M A) (f : A -> M B) w a w' :
  m w = (Ok a, w') -> (m ≫= f) w = f a w'.
Proof. intros H. rewrite bind_run. by rewrite H. Qed.

Lemma mret_run {A} (a : A) w : (mret a : M A) w = (Ok a, w).
Proof. reflexivity. Qed.

Lemma modify_run f w : modify f w = (Ok tt, f w).
Proof. reflexivity. Qed.

Lemma logger_run l s w :
  logger l s w = (Ok tt, with_log (log w ++ [mk_log l s]) w).
Proof. reflexivity. Qed.

Lemma http_get_run u w :
  http_get u w = (Ok tt, with_requests (requests w ++ [u]) w).
Proof. reflexivity. Qed.

Lemma client_announce_run c msg w :
  client_announce c msg w =
  (Ok tt, with_outbox (outbox w ++ [(c, Announce msg)]) w).
Proof. reflexivity. Qed.

Lemma client_privmsg_run c t msg w :
  client_privmsg c t msg w =
  (Ok tt, with_outbox (outbox w ++ [(c, Privmsg t msg)]) w).
Proof. reflexivity. Qed.

(** Projections of an updated world. *)
Ltac wsimpl :=
  cbn [updater tasks log outbox requests
       with_updater with_tasks with_log with_outbox with_requests
       task lock last latest fst snd].

Ltac lookup_tac :=
  wsimpl;
  first [ eassumption
        | apply lookup_insert_eq
        | rewrite lookup_insert_eq; reflexivity ].

Lemma set_last_run feed now fs w :
  updater w !! feed = Some fs ->
  set_last feed now w =
  (Ok tt, with_updater
     (<[feed := mk_state (task fs) (lock fs) now (latest fs)]> (updater w)) w).
Proof.
  intros H. unfold set_last.
  by rewrite (bind_ok _ _ _ _ _ (updater_get_run _ _ _ H)).
Qed.

Lemma set_latest_run feed entry fs w :
  updater w !! feed = Some fs ->
  set_latest feed entry w =
  (Ok tt, with_updater
     (<[feed := mk_state (task fs) (lock fs) (last fs) entry]> (updater w)) w).
Proof.
  intros H. unfold set_latest.
  by rewrite (bind_ok _ _ _ _ _ (updater_get_run _ _ _ H)).
Qed.

(** One primitive step of a run, and the step of a [bind] on it. *)
Ltac run_prim :=
  first [ apply in_updater_run
        | apply logger_run
        | apply http_get_run
        | apply modify_run
        | apply mret_run
        | apply updater_get_run; lookup_tac
        | apply rss_get_run; eassumption
        | apply set_last_run; lookup_tac
        | apply set_latest_run; lookup_tac ].

Ltac mstep := erewrite bind_ok by run_prim; cbv beta.

(** *** [get_latest] *)

Lemma get_latest_entry feed_url e es w :
  get_latest feed_url (Body (e :: es)) w =
  (Ok (Some (entry_of e)),
   with_requests (requests w ++ [feed_url])
     (with_log (log w ++ [log_retrieving feed_url]) w)).
Proof. unfold get_latest. do 2 mstep. reflexivity. Qed.

Lemma get_latest_client_error feed_url w :
  get_latest feed_url ClientError w =
  (Ok None,
   with_log ((log w ++ [log_retrieving feed_url]) ++
             [mk_log ERROR ("Exception raised when updating RSS feed for "
                            +:+ feed_url +:+ ".")])
     (with_requests (requests w ++ [feed_url]) w)).
Proof. unfold get_latest. do 3 mstep. reflexivity. Qed.

Lemma get_latest_no_entries feed_url w :
  get_latest feed_url (Body []) w =
  (Ok None,
   with_log ((log w ++ [log_retrieving feed_url]) ++
             [mk_log WARNING ("RSS feed " +:+ feed_url
                              +:+ " did not provide any entries.")])
     (with_requests (requests w ++ [feed_url]) w)).
Proof. unfold get_latest. do 3 mstep. reflexivity. Qed.


Lemma bind_raise {A B} (m : M A) (f : A -> M B) w e w' :
  m w = (Raise e, w') -> (m ≫= f) w = (Raise e, w').
Proof. intros H. rewrite bind_run. by rewrite H. Qed.

Lemma get_latest_escapes feed_url e w :
  get_latest feed_url (Escapes e) w =
  (Raise e,
   with_requests (requests w ++ [feed_url])
     (with_log (log w ++ [log_retrieving feed_url]) w)).
Proof. unfold get_latest. do 2 mstep. reflexivity. Qed.

(** [get_latest] returns nothing exactly on a transport failure and on a
    feed without entries. *)
Lemma get_latest_none feed_url resp w :
  result_of (get_latest feed_url resp) w = Ok None <->
  resp = ClientError \/ resp = Body [].
Proof.
  unfold result_of. split.
  - destruct resp as [|[|e es]|x]; [by left | by right | |].
    + by rewrite get_latest_entry.
    + by rewrite get_latest_escapes.
  - intros [-> | ->].
    + by rewrite get_latest_client_error.
    + by rewrite get_latest_no_entries.
Qed.

(** *** [announce] *)

Lemma announce_no_entry self feed target fs d w :
  updater w !! feed = Some fs -> rss_lookup feed = Some d ->
  latest fs = None ->
  announce self feed target w = (Ok tt, w).
Proof.
  intros Hu Hr Hl. unfold announce.
  mstep. rewrite (tracked_guard _ _ _ _ Hu Hr).
  mstep. by rewrite Hl.
Qed.

Lemma announce_broadcast self feed target fs d entry w :
  updater w !! feed = Some fs -> rss_lookup feed = Some d ->
  latest fs = Some entry -> truthy target = false ->
  announce self feed target w =
  (Ok tt, with_outbox
     (outbox w ++ [(client self, Announce (entry_msg d entry))]) w).
Proof.
  intros Hu Hr Hl Ht. unfold announce.
  mstep. rewrite (tracked_guard _ _ _ _ Hu Hr).
  mstep. rewrite Hl. mstep.
  destruct target as [t|]; [rewrite Ht|]; apply client_announce_run.
Qed.

Lemma announce_direct self feed t fs d entry w :
  updater w !! feed = Some fs -> rss_lookup feed = Some d ->
  latest fs = Some entry -> truthy (Some t) = true ->
  announce self feed (Some t) w =
  (Ok tt, with_outbox
     (outbox w ++ [(client self, Privmsg t (entry_msg d entry))]) w).
Proof.
  intros Hu Hr Hl Ht. unfold announce.
  mstep. rewrite (tracked_guard _ _ _ _ Hu Hr).
  mstep. rewrite Hl. mstep.
  rewrite Ht. apply client_privmsg_run.
Qed.

(** *** [update] on a tracked feed of the catalogue *)

Ltac update_start Hu Hr :=
  unfold update;
  mstep; rewrite (tracked_guard _ _ _ _ Hu Hr);
  do 3 mstep.

Ltac world_eq :=
  unfold refreshed; wsimpl;
  rewrite ?insert_insert_eq, <- ?app_assoc, ?app_nil_r;
  try reflexivity.

Lemma update_client_error self feed ann now fs d w :
  updater w !! feed = Some fs -> rss_lookup feed = Some d ->
  update self feed ann ClientError now w =
  (Ok tt, refreshed feed d now fs (latest fs)
     [mk_log ERROR ("Exception raised when updating RSS feed for "
                    +:+ Feed.url d +:+ ".");
      mk_log ERROR ("Update for RSS feed " +:+ feed
                    +:+ " did not complete successfully.")] [] w).
Proof.
  intros Hu Hr. update_start Hu Hr.
  erewrite bind_ok by apply get_latest_client_error. cbv beta.
  mstep. rewrite logger_run. world_eq.
Qed.

Lemma update_no_entries self feed ann now fs d w :
  updater w !! feed = Some fs -> rss_lookup feed = Some d ->
  update self feed ann (Body []) now w =
  (Ok tt, refreshed feed d now fs (latest fs)
     [mk_log WARNING ("RSS feed " +:+ Feed.url d
                      +:+ " did not provide any entries.");
      mk_log ERROR ("Update for RSS feed " +:+ feed
                    +:+ " did not complete successfully.")] [] w).
Proof.
  intros Hu Hr. update_start Hu Hr.
  erewrite bind_ok by apply get_latest_no_entries. cbv beta.
  mstep. rewrite logger_run. world_eq.
Qed.

Lemma update_first_entry self feed ann e es now fs d w :
  updater w !! feed = Some fs -> rss_lookup feed = Some d ->
  latest fs = None ->
  update self feed ann (Body (e :: es)) now w =
  (Ok tt, refreshed feed d now fs (Some (entry_of e))
     [mk_log INFO ("Detected first entry for RSS feed " +:+ feed +:+ ".")]
     [] w).
Proof.
  intros Hu Hr Hl. update_start Hu Hr.
  erewrite bind_ok by apply get_latest_entry. cbv beta.
  do 3 mstep. wsimpl. rewrite Hl, logger_run. world_eq.
Qed.

Lemma update_same_url self feed ann e es now fs d old w :
  updater w !! feed = Some fs -> rss_lookup feed = Some d ->
  latest fs = Some old -> Entry.url old = guid e ->
  update self feed ann (Body (e :: es)) now w =
  (Ok tt, refreshed feed d now fs (Some (entry_of e)) [] [] w).
Proof.
  intros Hu Hr Hl He. update_start Hu Hr.
  erewrite bind_ok by apply get_latest_entry. cbv beta.
  do 3 mstep. wsimpl. rewrite Hl.
  rewrite bool_decide_eq_false_2 by (intros Hne; by apply Hne).
  rewrite mret_run. world_eq.
Qed.

Lemma update_new_url_quiet self feed e es now fs d old w :
  updater w !! feed = Some fs -> rss_lookup feed = Some d ->
  latest fs = Some old -> Entry.url old ≠ guid e ->
  update self feed false (Body (e :: es)) now w =
  (Ok tt, refreshed feed d now fs (Some (entry_of e))
     [mk_log INFO ("Detected new entry for RSS feed " +:+ feed +:+ ".")]
     [] w).
Proof.
  intros Hu Hr Hl He. update_start Hu Hr.
  erewrite bind_ok by apply get_latest_entry. cbv beta.
  do 3 mstep. wsimpl. rewrite Hl.
  rewrite bool_decide_eq_true_2 by exact He.
  mstep. rewrite mret_run. world_eq.
Qed.

Lemma update_new_url_announce self feed e es now fs d old w :
  updater w !! feed = Some fs -> rss_lookup feed = Some d ->
  latest fs = Some old -> Entry.url old ≠ guid e ->
  update self feed true (Body (e :: es)) now w =
  (Ok tt, refreshed feed d now fs (Some (entry_of e))
     [mk_log INFO ("Detected new entry for RSS feed " +:+ feed +:+ ".")]
     [(client self, Announce (entry_msg d (entry_of e)))] w).
Proof.
  intros Hu Hr Hl He. update_start Hu Hr.
  erewrite bind_ok by apply get_latest_entry. cbv beta.
  do 3 mstep. wsimpl. rewrite Hl.
  rewrite bool_decide_eq_true_2 by exact He.
  mstep.
  erewrite announce_broadcast; [| lookup_tac | exact Hr | reflexivity | reflexivity].
  world_eq.
Qed.

(** A refresh cycle of a tracked feed of the catalogue whose fetch
    returns, with an entry or with nothing, returns normally and leaves
    a [refreshed] world. *)
Lemma update_returns self feed ann resp now fs d w :
  updater w !! feed = Some fs -> rss_lookup feed = Some d ->
  (forall x, resp ≠ Escapes x) ->
  exists latest' logs out,
    update self feed ann resp now w =
    (Ok tt, refreshed feed d now fs latest' logs out w).
Proof.
  intros Hu Hr Hret. destruct resp as [|[|e es]|x]; [| | |by destruct (Hret x)].
  - do 3 eexists. by apply update_client_error.
  - do 3 eexists. by apply update_no_entries.
  - destruct (latest fs) as [old|] eqn:Hl.
    + destruct (decide (Entry.url old = guid e)) as [He|He].
      * do 3 eexists. by eapply update_same_url.
      * destruct ann; do 3 eexists.
        -- by eapply update_new_url_announce.
        -- by eapply update_new_url_quiet.
    + do 3 eexists. by apply update_first_entry.
Qed.

(** A cycle whose fetch raises: the exception leaves [update] before
    the timer is reset; the request was made, two records were logged,
    and that is all. *)
Lemma update_escapes self feed ann x now fs d w :
  updater w !! feed = Some fs -> rss_lookup feed = Some d ->
  update self feed ann (Escapes x) now w =
  (Raise x,
   mk_world (updater w) (tasks w)
            (log w ++ [log_running feed; log_retrieving (Feed.url d)])
            (outbox w) (requests w ++ [Feed.url d])).
Proof.
  intros Hu Hr. update_start Hu Hr.
  erewrite bind_raise by apply get_latest_escapes.
  wsimpl. by rewrite <- app_assoc.
Qed.

(** ** Strings *)

Lemma append_assoc (a b c : string) : (a +:+ b) +:+ c = a +:+ (b +:+ c).
Proof.
  induction a as [|x a IH]; [done |].
  change (String x ((a +:+ b) +:+ c) = String x (a +:+ (b +:+ c))).
  by rewrite IH.
Qed.

Lemma contains_here sub q : contains sub (sub +:+ q).
Proof. by exists "", q. Qed.

Lemma contains_later sub p s : contains sub s -> contains sub (p +:+ s).
Proof.
  intros (p' & q & ->). exists (p +:+ p'), q. by rewrite append_assoc.
Qed.

Example isoformat_t0 : isoformat t0 = "2015-01-01T00:00:00".
Proof. reflexivity. Qed.

Example isoformat_year_987 :
  isoformat (mk_datetime 987 12 31 23 59 7) = "0987-12-31T23:59:07".
Proof. reflexivity. Qed.

(** ** Small runs *)

Example started_video : updater w_started !! "video" = Some fs_started.
Proof. vm_compute. reflexivity. Qed.

Example cached_video :
  updater w_cached !! "video" = Some fs_cached /\ outbox w_cached = [].
Proof. vm_compute. by split. Qed.

Example second_entry_announced :
  outbox (world_of (update bot "video" true (Body [ep2]) 20) w_cached) =
  [(7, Announce "LRR Video Feed: Ep2 (v2) [2015-01-01T00:05:00Z]")].
Proof. vm_compute. reflexivity. Qed.

(** The loop on a source that keeps failing: one request in 400 time
    units. *)
Example polling_a_dead_source :
  let run := auto_update_loop bot "video"
               [mk_tick 0 ClientError 0; mk_tick 300 ClientError 301;
                mk_tick 400 ClientError 500] in
  result_of run w_started = Ok [Slept 300.1; Refreshed; Slept 201.1] /\
  requests (world_of run w_started) = [Feed.url video].
Proof. vm_compute. by split. Qed.

(** An iteration of the loop on a feed that [stop] has removed raises
    [KeyError]. *)
Example polling_after_stop :
  result_of (auto_update_iter bot "video" (mk_tick 0 ClientError 0))
            (world_of (stop bot) w_started)
  = Raise (KeyError "video").
Proof. vm_compute. reflexivity. Qed.

(** Rounding at work.  With the timer at the float 1000.1 and a delay of
    300, the sum in binary64 is the float 1300.0999999999999: at that
    clock reading the test says to refresh, though the reading is below
    the exact sum. *)
Example refresh_one_ulp_early :
  let t := Q_of_float 0x1.f40cccccccccdp+9 in
  let now := Q_of_float 0x1.4506666666666p+10 in
  let w := world_of (update bot "video" true ClientError t) w_started in
  (now < t + delay bot)%Q /\
  fadd binary64 t (delay bot) = now /\
  poll_test binary64 bot "video" now w = (Ok RunCycle, w).
Proof. vm_compute. by repeat split. Qed.

(** ** The refresh cycle *)

(** C8.  [update] on a feed id that is not tracked, or not in the
    catalogue, logs one warning and returns normally; nothing is
    fetched, no feed state is made or changed, no task is touched and
    nothing is sent. *)
Theorem update_unknown_feed self feed ann resp now w :
  updater w !! feed = None \/ rss_lookup feed = None ->
  let w' := world_of (update self feed ann resp now) w in
  result_of (update self feed ann resp now) w = Ok tt /\
  log w' = log w ++ [mk_log WARNING
                       ("Cannot update unknown RSS feed " +:+ feed +:+ ".")] /\
  requests w' = requests w /\
  updater w' = updater w /\
  tasks w' = tasks w /\
  outbox w' = outbox w.
Proof.
  intros H. unfold world_of, result_of, update.
  rewrite bind_run, in_updater_run, (untracked_guard _ _ H).
  done.
Qed.

Lemma update_unknown_feed_witness :
  (updater w_cached !! "news" = None \/ rss_lookup "news" = None) /\
  let w' := world_of (update bot "news" true (Body [ep2]) 20) w_cached in
  result_of (update bot "news" true (Body [ep2]) 20) w_cached = Ok tt /\
  log w' = log w_cached ++
           [mk_log WARNING "Cannot update unknown RSS feed news."] /\
  requests w' = requests w_cached /\
  updater w' = updater w_cached /\
  tasks w' = tasks w_cached /\
  outbox w' = outbox w_cached.
Proof.
  split.
  - right. reflexivity.
  - apply (update_unknown_feed bot "news" true (Body [ep2]) 20 w_cached).
    right. reflexivity.
Defined.

(** C1.  On a tracked feed with nothing cached, a cycle whose fetch
    returns an entry stores that entry as [latest] and hands nothing to
    the client, whatever the entry and whatever the [announce] flag. *)
Theorem first_observation_is_silent self feed ann e es now fs d w :
  updater w !! feed = Some fs -> rss_lookup feed = Some d ->
  latest fs = None ->
  let w' := world_of (update self feed ann (Body (e :: es)) now) w in
  result_of (update self feed ann (Body (e :: es)) now) w = Ok tt /\
  latest <$> updater w' !! feed = Some (Some (entry_of e)) /\
  outbox w' = outbox w.
Proof.
  intros Hu Hr Hl. unfold world_of, result_of.
  rewrite (update_first_entry _ _ _ _ _ _ _ _ _ Hu Hr Hl).
  unfold refreshed. wsimpl. rewrite lookup_insert_eq, app_nil_r. done.
Qed.

Lemma first_observation_is_silent_witness :
  (updater w_started !! "video" = Some fs_started /\
   rss_lookup "video" = Some video /\
   latest fs_started = None) /\
  let w' := world_of (update bot "video" false (Body [ep1]) 10) w_started in
  result_of (update bot "video" false (Body [ep1]) 10) w_started = Ok tt /\
  latest <$> updater w' !! "video" = Some (Some (entry_of ep1)) /\
  outbox w' = outbox w_started.
Proof.
  split.
  - split; [vm_compute; reflexivity | split; reflexivity].
  - apply (first_observation_is_silent bot "video" false ep1 [] 10
             fs_started video w_started);
      [vm_compute; reflexivity | reflexivity | reflexivity].
Defined.

(** C2.  On a tracked feed with a cached entry, a cycle with the
    [announce] flag set whose fetched entry has another "url" hands
    exactly one message to the client, a broadcast; the message holds
    the feed's title, the new entry's title, its url, and its time in
    ISO-8601 form followed by "Z". *)
Theorem new_entry_notifies_once self feed e es now fs d old w :
  updater w !! feed = Some fs -> rss_lookup feed = Some d ->
  latest fs = Some old -> Entry.url old ≠ Entry.url (entry_of e) ->
  let w' := world_of (update self feed true (Body (e :: es)) now) w in
  let new := entry_of e in
  let msg := Feed.title d +:+ ": " +:+ Entry.title new +:+ " ("
             +:+ Entry.url new +:+ ") ["
             +:+ isoformat (Entry.time new) +:+ "Z]" in
  result_of (update self feed true (Body (e :: es)) now) w = Ok tt /\
  outbox w' = outbox w ++ [(client self, Announce msg)] /\
  contains (Feed.title d) msg /\
  contains (Entry.title new) msg /\
  contains (Entry.url new) msg /\
  contains (isoformat (Entry.time new) +:+ "Z") msg.
Proof.
  intros Hu Hr Hl He. unfold world_of, result_of.
  rewrite (update_new_url_announce _ _ _ _ _ _ _ _ _ Hu Hr Hl He).
  unfold refreshed. wsimpl.
  split; [done |]. split; [done |].
  split; [apply contains_here |].
  split; [do 2 apply contains_later; apply contains_here |].
  split; [do 4 apply contains_later; apply contains_here |].
  do 6 apply contains_later.
  change "Z]" with ("Z" +:+ "]"). rewrite <- append_assoc.
  apply contains_here.
Qed.

Lemma new_entry_notifies_once_witness :
  (updater w_cached !! "video" = Some fs_cached /\
   rss_lookup "video" = Some video /\
   latest fs_cached = Some (entry_of ep1) /\
   Entry.url (entry_of ep1) ≠ Entry.url (entry_of ep2)) /\
  outbox (world_of (update bot "video" true (Body [ep2]) 20) w_cached) =
  outbox w_cached ++
  [(7, Announce "LRR Video Feed: Ep2 (v2) [2015-01-01T00:05:00Z]")].
Proof.
  assert (Hne : Entry.url (entry_of ep1) ≠ Entry.url (entry_of ep2))
    by discriminate.
  split.
  - split; [vm_compute; reflexivity | split; [reflexivity | split; [reflexivity | exact Hne]]].
  - apply (new_entry_notifies_once bot "video" ep2 [] 20 fs_cached video
             (entry_of ep1) w_cached);
      [vm_compute; reflexivity | reflexivity | reflexivity | exact Hne].
Defined.

(** C3.  On a tracked feed with a cached entry, a cycle whose fetched
    entry has the cached "url" hands nothing to the client and logs no
    new entry, whatever its title and time and whatever the [announce]
    flag. *)
Theorem same_url_is_silent self feed ann e es now fs d old w :
  updater w !! feed = Some fs -> rss_lookup feed = Some d ->
  latest fs = Some old -> Entry.url old = Entry.url (entry_of e) ->
  let w' := world_of (update self feed ann (Body (e :: es)) now) w in
  result_of (update self feed ann (Body (e :: es)) now) w = Ok tt /\
  outbox w' = outbox w /\
  log w' = log w ++ [log_running feed; log_retrieving (Feed.url d)].
Proof.
  intros Hu Hr Hl He. unfold world_of, result_of.
  rewrite (update_same_url _ _ _ _ _ _ _ _ _ _ Hu Hr Hl He).
  unfold refreshed. wsimpl. by rewrite app_nil_r.
Qed.

Lemma same_url_is_silent_witness :
  (updater w_cached !! "video" = Some fs_cached /\
   rss_lookup "video" = Some video /\
   latest fs_cached = Some (entry_of ep1) /\
   Entry.url (entry_of ep1) = Entry.url (entry_of ep1')) /\
  outbox (world_of (update bot "video" true (Body [ep1']) 20) w_cached) =
  outbox w_cached.
Proof.
  split.
  - split; [vm_compute; reflexivity | repeat split].
  - apply (same_url_is_silent bot "video" true ep1' [] 20 fs_cached video
             (entry_of ep1) w_cached);
      [vm_compute; reflexivity | reflexivity | reflexivity | reflexivity].
Defined.

(** C4, as stated, fails: with "v1" cached, fetching "v1" again under
    another title and time replaces the cached record. *)
Lemma same_url_keeps_cache_counterexample :
  let w' := world_of (update bot "video" true (Body [ep1']) 20) w_cached in
  updater w_cached !! "video" = Some fs_cached /\
  latest fs_cached = Some (entry_of ep1) /\
  Entry.url (entry_of ep1) = Entry.url (entry_of ep1') /\
  latest <$> updater w' !! "video" ≠ latest <$> updater w_cached !! "video" /\
  updater w' ≠ updater w_cached.
Proof.
  assert (H1 : updater w_cached !! "video" = Some fs_cached)
    by (vm_compute; reflexivity).
  assert (H2 : updater
                 (world_of (update bot "video" true (Body [ep1']) 20) w_cached)
               !! "video"
               = Some (mk_state 0 NewLock 20 (Some (entry_of ep1'))))
    by (vm_compute; reflexivity).
  cbv zeta.
  split; [exact H1 |]. split; [reflexivity |]. split; [reflexivity |].
  split.
  - rewrite H1, H2. discriminate.
  - intros Heq. rewrite Heq, H1 in H2. discriminate.
Qed.

(** C4, amended.  On a tracked feed with a cached entry, a cycle whose
    fetched entry has the cached "url" hands nothing to the client and
    touches no other feed and no task; the feed's own state keeps its
    task and lock, its timer is set to the clock reading, and its
    [latest] becomes the fetched record: same url, title and time as
    fetched. *)
Theorem same_url_refreshes_cache self feed ann e es now fs d old w :
  updater w !! feed = Some fs -> rss_lookup feed = Some d ->
  latest fs = Some old -> Entry.url old = Entry.url (entry_of e) ->
  let w' := world_of (update self feed ann (Body (e :: es)) now) w in
  updater w' =
    <[feed := mk_state (task fs) (lock fs) now (Some (entry_of e))]>
      (updater w) /\
  Entry.url (entry_of e) = Entry.url old /\
  tasks w' = tasks w /\
  outbox w' = outbox w.
Proof.
  intros Hu Hr Hl He. unfold world_of.
  rewrite (update_same_url _ _ _ _ _ _ _ _ _ _ Hu Hr Hl He).
  unfold refreshed. wsimpl. by rewrite app_nil_r.
Qed.

Lemma same_url_refreshes_cache_witness :
  (updater w_cached !! "video" = Some fs_cached /\
   rss_lookup "video" = Some video /\
   latest fs_cached = Some (entry_of ep1) /\
   Entry.url (entry_of ep1) = Entry.url (entry_of ep1')) /\
  updater (world_of (update bot "video" true (Body [ep1']) 20) w_cached) =
  <[ "video" := mk_state 0 NewLock 20 (Some (entry_of ep1')) ]>
    (updater w_cached).
Proof.
  split.
  - split; [vm_compute; reflexivity | repeat split].
  - apply (same_url_refreshes_cache bot "video" true ep1' [] 20 fs_cached
             video (entry_of ep1) w_cached);
      [vm_compute; reflexivity | reflexivity | reflexivity | reflexivity].
Defined.

(** C5.  On a tracked feed, a cycle whose fetch returns nothing returns
    normally, leaves [latest] as it was and hands nothing to the
    client.  By [get_latest_none] the fetch returns nothing exactly on
    a transport failure and on a feed without entries. *)
Theorem failed_fetch_keeps_cache self feed ann resp now fs d w :
  updater w !! feed = Some fs -> rss_lookup feed = Some d ->
  result_of (get_latest (Feed.url d) resp) w = Ok None ->
  let w' := world_of (update self feed ann resp now) w in
  result_of (update self feed ann resp now) w = Ok tt /\
  latest <$> updater w' !! feed = latest <$> updater w !! feed /\
  (forall feed', feed' ≠ feed -> updater w' !! feed' = updater w !! feed') /\
  outbox w' = outbox w /\
  (exists l, log w' = l ++ [mk_log ERROR ("Update for RSS feed " +:+ feed
                                          +:+ " did not complete successfully.")]).
Proof.
  intros Hu Hr Hf. apply get_latest_none in Hf.
  unfold world_of, result_of.
  destruct Hf as [-> | ->];
    [rewrite (update_client_error _ _ _ _ _ _ _ Hu Hr)
    |rewrite (update_no_entries _ _ _ _ _ _ _ Hu Hr)];
    unfold refreshed; wsimpl;
    rewrite lookup_insert_eq, Hu, app_nil_r;
    (split; [done |]); (split; [done |]);
    (split; [intros f' Hf'; by rewrite lookup_insert_ne |]);
    (split; [done |]);
    eexists (_ ++ [_; _; _]); by rewrite <- app_assoc.
Qed.

Lemma failed_fetch_keeps_cache_witness :
  (updater w_cached !! "video" = Some fs_cached /\
   rss_lookup "video" = Some video /\
   result_of (get_latest (Feed.url video) ClientError) w_cached = Ok None) /\
  let w' := world_of (update bot "video" true ClientError 20) w_cached in
  latest <$> updater w' !! "video" = latest <$> updater w_cached !! "video" /\
  outbox w' = outbox w_cached.
Proof.
  split.
  - split; [vm_compute; reflexivity | split; reflexivity].
  - pose proof (failed_fetch_keeps_cache bot "video" true ClientError 20
                  fs_cached video w_cached) as H.
    cbv zeta in H.
    destruct H as (_ & H2 & _ & H4 & _);
      [vm_compute; reflexivity | reflexivity | reflexivity |].
    split; [exact H2 | exact H4].
Defined.

(** ** [announce] on demand *)

(** C9, as stated, fails: a target that is given but empty counts as no
    target, and the cached entry goes out as a broadcast. *)
Lemma announce_empty_target_counterexample :
  let w' := world_of (announce bot "video" (Some "")) w_cached in
  let msg := "LRR Video Feed: Ep1 (v1) [2015-01-01T00:00:00Z]" in
  updater w_cached !! "video" = Some fs_cached /\
  latest fs_cached = Some (entry_of ep1) /\
  outbox w' = outbox w_cached ++ [(7, Announce msg)] /\
  outbox w' ≠ outbox w_cached ++ [(7, Privmsg "" msg)].
Proof.
  assert (H : outbox (world_of (announce bot "video" (Some "")) w_cached)
              = outbox w_cached ++
                [(7, Announce "LRR Video Feed: Ep1 (v1) [2015-01-01T00:00:00Z]")])
    by (vm_compute; reflexivity).
  cbv zeta.
  split; [vm_compute; reflexivity |]. split; [reflexivity |].
  split; [exact H |].
  rewrite H. intros Heq. apply app_inv_head in Heq. discriminate.
Qed.

(** C9, amended.  [announce] on a tracked feed never fetches and never
    changes the feed states.  With nothing cached it does nothing at
    all.  With an entry cached it hands that entry to the client once:
    as a direct message to the target when a non-empty target is given,
    as a broadcast when no target, or an empty one, is given. *)
Theorem announce_latest self feed target fs d w :
  updater w !! feed = Some fs -> rss_lookup feed = Some d ->
  let w' := world_of (announce self feed target) w in
  result_of (announce self feed target) w = Ok tt /\
  requests w' = requests w /\
  updater w' = updater w /\
  (latest fs = None -> w' = w) /\
  (forall entry, latest fs = Some entry ->
     (forall t, target = Some t -> t ≠ "" ->
        outbox w' =
        outbox w ++ [(client self, Privmsg t (entry_msg d entry))]) /\
     (target = None \/ target = Some "" ->
        outbox w' =
        outbox w ++ [(client self, Announce (entry_msg d entry))])).
Proof.
  intros Hu Hr. unfold world_of, result_of.
  destruct (latest fs) as [entry|] eqn:Hl.
  - destruct (truthy target) eqn:Ht.
    + destruct target as [t|]; [| discriminate].
      rewrite (announce_direct _ _ _ _ _ _ _ Hu Hr Hl Ht). wsimpl.
      do 3 (split; [done |]). split; [done |].
      intros entry' [= <-]. split.
      * by intros t' [= <-] _.
      * intros [? | [= ->]]; discriminate.
    + rewrite (announce_broadcast _ _ _ _ _ _ _ Hu Hr Hl Ht). wsimpl.
      do 3 (split; [done |]). split; [done |].
      intros entry' [= <-]. split; [| done].
      intros t -> Hne. exfalso. simpl in Ht.
      by rewrite bool_decide_eq_false_2 in Ht.
  - rewrite (announce_no_entry _ _ _ _ _ _ Hu Hr Hl). wsimpl.
    do 4 (split; [done |]). intros entry' [=].
Qed.

Lemma announce_latest_witness :
  (updater w_cached !! "video" = Some fs_cached /\
   rss_lookup "video" = Some video) /\
  outbox (world_of (announce bot "video" (Some "nick")) w_cached) =
  outbox w_cached ++
  [(7, Privmsg "nick" "LRR Video Feed: Ep1 (v1) [2015-01-01T00:00:00Z]")].
Proof.
  split.
  - split; [vm_compute; reflexivity | reflexivity].
  - pose proof (announce_latest bot "video" (Some "nick") fs_cached video
                  w_cached) as H.
    cbv zeta in H.
    destruct H as (_ & _ & _ & _ & H);
      [vm_compute; reflexivity | reflexivity |].
    destruct (H (entry_of ep1) eq_refl) as [Hd _].
    apply (Hd "nick" eq_refl). discriminate.
Defined.

(** ** [start] and [stop] *)

Lemma create_task_run self feed w :
  create_task self feed w =
  (Ok (length (tasks w)),
   with_tasks (tasks w ++ [mk_task self feed false false]) w).
Proof. reflexivity. Qed.

(** Where every key is tracked already, the loop of [start] only warns. *)
Lemma start_feeds_tracked self keys : forall w,
  Forall (fun k => is_Some (updater w !! k)) keys ->
  start_feeds self keys w =
  (Ok tt, with_log (log w ++ (log_already_running <$> keys)) w).
Proof.
  induction keys as [|k keys IH]; intros w Hall.
  - cbn [start_feeds fmap list_fmap]. rewrite mret_run, app_nil_r.
    by destruct w.
  - apply Forall_cons in Hall as [Hk Hall].
    cbn [start_feeds]. mstep.
    rewrite bool_decide_eq_true_2 by exact Hk. cbn [negb].
    mstep. rewrite IH by exact Hall.
    wsimpl. rewrite <- app_assoc. reflexivity.
Qed.

(** The loop of [start] returns normally, and leaves every key tracked. *)
Lemma start_feeds_tracks self keys : forall w,
  exists w', start_feeds self keys w = (Ok tt, w') /\
    (forall k, is_Some (updater w !! k) -> is_Some (updater w' !! k)) /\
    Forall (fun k => is_Some (updater w' !! k)) keys.
Proof.
  induction keys as [|k keys IH]; intros w.
  - exists w. by repeat split.
  - cbn [start_feeds]. mstep.
    destruct (decide (is_Some (updater w !! k))) as [Hk|Hk].
    + rewrite bool_decide_eq_true_2 by exact Hk. cbn [negb]. mstep.
      match goal with |- context [start_feeds self keys ?w1] =>
        destruct (IH w1) as (w' & -> & Hmono & Hall) end.
      exists w'. split; [done |]. split; [exact Hmono |].
      apply Forall_cons. split; [by apply Hmono | exact Hall].
    + rewrite bool_decide_eq_false_2 by exact Hk. cbn [negb].
      erewrite bind_ok; cycle 1.
      { erewrite bind_ok by apply create_task_run. cbv beta. apply modify_run. }
      cbv beta.
      match goal with |- context [start_feeds self keys ?w1] =>
        destruct (IH w1) as (w' & -> & Hmono & Hall) end.
      exists w'. split; [done |].
      assert (Hin : forall k', is_Some (updater w !! k') \/ k' = k ->
                    is_Some (updater w' !! k')).
      { intros k' Hk'. apply Hmono. wsimpl.
        rewrite lookup_insert. case_decide; [by eexists |].
        destruct Hk' as [? | ->]; done. }
      split; [intros k' ?; apply Hin; by left |].
      apply Forall_cons. split; [apply Hin; by right | exact Hall].
Qed.

(** C10.  The feed states live in one dictionary that all instances
    share.  Once [start] has run on one instance, [start] on any other
    instance makes no feed state and no task: it only logs one
    "already running" warning for each feed of the catalogue. *)
Theorem second_start_only_warns (p1 p2 : LRRFeedParser) (w : World) :
  let w1 := world_of (start p1) w in
  let w2 := world_of (start p2) w1 in
  result_of (start p2) w1 = Ok tt /\
  updater w2 = updater w1 /\
  tasks w2 = tasks w1 /\
  log w2 = log w1 ++ [log_already_running "video";
                      log_already_running "podcast"] /\
  outbox w2 = outbox w1 /\
  requests w2 = requests w1.
Proof.
  unfold world_of, result_of, start.
  destruct (start_feeds_tracks p1 feed_keys w) as (w1 & -> & _ & Hall).
  cbn [snd]. by rewrite (start_feeds_tracked p2 feed_keys w1 Hall).
Qed.

Lemma task_cancel_run h w :
  task_cancel h w = (Ok tt, with_tasks (alter request_cancel h (tasks w)) w).
Proof. reflexivity. Qed.

Lemma updater_del_run feed fs w :
  updater w !! feed = Some fs ->
  updater_del feed w = (Ok tt, with_updater (delete feed (updater w)) w).
Proof.
  intros H. unfold updater_del.
  by rewrite (bind_ok _ _ _ _ _ (updater_get_run _ _ _ H)).
Qed.

Lemma request_cancel_finished t : finished (request_cancel t) = finished t.
Proof. unfold request_cancel. by destruct (finished t) eqn:E. Qed.

Lemma cancel_keeps_finished h (ts : list Task) :
  finished <$> alter request_cancel h ts = finished <$> ts.
Proof.
  rewrite (list_fmap_alter finished request_cancel id).
  - by apply list_alter_id.
  - apply Forall_forall. intros t _. apply request_cancel_finished.
Qed.

(** The loop of [stop] returns normally and makes no task finish: a
    cancellation is only requested. *)
Lemma stop_feeds_pending self keys : forall w,
  exists w', stop_feeds self keys w = (Ok tt, w') /\
    finished <$> tasks w' = finished <$> tasks w.
Proof.
  induction keys as [|k keys IH]; intros w.
  - by exists w.
  - cbn [stop_feeds]. mstep.
    destruct (updater w !! k) as [fs|] eqn:Hk.
    + rewrite bool_decide_eq_true_2 by eauto.
      erewrite bind_ok; cycle 1.
      { mstep. erewrite bind_ok by apply task_cancel_run. cbv beta.
        eapply updater_del_run. wsimpl. exact Hk. }
      cbv beta.
      match goal with |- context [stop_feeds self keys ?w1] =>
        destruct (IH w1) as (w' & -> & Hfin) end.
      exists w'. split; [done |].
      rewrite Hfin. wsimpl. apply cancel_keeps_finished.
    + rewrite bool_decide_eq_false_2 by (by intros [? ?]).
      mstep.
      match goal with |- context [stop_feeds self keys ?w1] =>
        destruct (IH w1) as (w' & -> & Hfin) end.
      exists w'. by split.
Qed.

(** [stop] returns with every task as far from its end as before. *)
Lemma stop_does_not_wait self w :
  result_of (stop self) w = Ok tt /\
  finished <$> tasks (world_of (stop self) w) = finished <$> tasks w.
Proof.
  unfold result_of, world_of, stop.
  destruct (stop_feeds_pending self feed_keys w) as (w' & H & Hfin).
  rewrite (bind_ok _ _ _ _ _ H), logger_run. by wsimpl.
Qed.

(** C7, on the code.  [start()], then [stop()]: [stop] returns normally
    with the dictionary emptied and both polling tasks asked to cancel,
    yet neither has finished; they finish when the event loop next
    runs them, after [stop] has returned. *)
Theorem stop_returns_with_tasks_pending :
  let w' := world_of (stop bot) w_started in
  result_of (stop bot) w_started = Ok tt /\
  updater w' = ∅ /\
  tasks w' = [mk_task bot "video" true false;
              mk_task bot "podcast" true false] /\
  log w' = [mk_log INFO "Waiting for automatic update to finish."] /\
  tasks (world_of loop_run_once w') =
    [mk_task bot "video" true true; mk_task bot "podcast" true true].
Proof. vm_compute. repeat split. Qed.

(** ** The polling loop *)


Lemma auto_update_iter_refreshes self feed tk fs w :
  updater w !! feed = Some fs ->
  (last fs + delay self <= tick_now tk)%Q ->
  auto_update_iter self feed tk w =
  (update self feed true (tick_resp tk) (tick_after tk);; mret Refreshed) w.
Proof.
  intros Hu Hle. unfold auto_update_iter. mstep. cbv zeta.
  destruct (Qlt_le_dec _ _) as [Hlt | _]; [| reflexivity].
  exfalso. by apply (Qlt_not_le _ _ Hlt).
Qed.







(** * Further properties of the code *)

(** ** [start] and [stop], feed by feed *)

(** What the loop of [start] does to any world, for any list of keys. *)
Lemma start_feeds_spec self keys : forall w,
  exists w', start_feeds self keys w = (Ok tt, w') /\
    (forall k fs, updater w !! k = Some fs -> updater w' !! k = Some fs) /\
    (forall k, k ∉ keys -> updater w' !! k = updater w !! k) /\
    (forall k, k ∈ keys -> updater w !! k = None ->
       exists h, updater w' !! k = Some (fresh_state h) /\
                 length (tasks w) <= h /\
                 tasks w' !! h = Some (mk_task self k false false)) /\
    (forall h t, tasks w !! h = Some t -> tasks w' !! h = Some t) /\
    outbox w' = outbox w /\ requests w' = requests w.
Proof.
  induction keys as [|k0 keys IH]; intros w.
  - exists w. repeat split; try done. intros k Hk. by apply elem_of_nil in Hk.
  - cbn [start_feeds]. mstep.
    destruct (updater w !! k0) as [fs0|] eqn:Hk0.
    + rewrite bool_decide_eq_true_2 by eauto. cbn [negb]. mstep.
      match goal with |- context [start_feeds self keys ?w1] =>
        destruct (IH w1) as (w' & -> & Hkeep & Hout & Hnew & Htasks & Ho & Hq)
      end.
      exists w'. split; [done |]. split; [exact Hkeep |].
      split; [| split; [| split; [exact Htasks | by split]]].
      * intros k Hk. apply not_elem_of_cons in Hk as [_ Hk]. by apply Hout.
      * intros k Hk Hnone. apply elem_of_cons in Hk as [-> | Hk].
        -- congruence.
        -- by apply Hnew.
    + rewrite bool_decide_eq_false_2 by (by intros [? ?]). cbn [negb].
      erewrite bind_ok; cycle 1.
      { erewrite bind_ok by apply create_task_run. cbv beta. apply modify_run. }
      cbv beta.
      match goal with |- context [start_feeds self keys ?w1] =>
        destruct (IH w1) as (w' & -> & Hkeep & Hout & Hnew & Htasks & Ho & Hq)
      end.
      revert Hkeep Hout Hnew Htasks Ho Hq. wsimpl.
      intros Hkeep Hout Hnew Htasks Ho Hq.
      exists w'. split; [done |].
      split; [| split; [| split; [| split; [| by split]]]].
      * intros k fs Hk. apply Hkeep. rewrite lookup_insert_ne; [done |].
        intros <-. congruence.
      * intros k Hk. apply not_elem_of_cons in Hk as [Hne Hk].
        rewrite (Hout _ Hk). by rewrite lookup_insert_ne.
      * intros k Hk Hnone.
        destruct (decide (k = k0)) as [-> | Hne].
        -- exists (length (tasks w)). split; [| split; [done |]].
           ++ apply Hkeep. by rewrite lookup_insert_eq.
           ++ apply Htasks. by apply list_lookup_middle.
        -- apply elem_of_cons in Hk as [? | Hk]; [done |].
           destruct (Hnew k Hk) as (h & H1 & H2 & H3).
           { by rewrite lookup_insert_ne. }
           exists h. split; [done |]. split; [| done].
           rewrite length_app in H2. lia.
      * intros h t Ht. apply Htasks. by apply lookup_app_l_Some.
Qed.

Lemma request_cancel_idem t :
  request_cancel (request_cancel t) = request_cancel t.
Proof. unfold request_cancel. by destruct t as [o f m []]. Qed.

(** What the loop of [stop] does to any world, for any list of keys. *)
Lemma stop_feeds_spec self keys : forall w,
  exists w', stop_feeds self keys w = (Ok tt, w') /\
    (forall k, k ∈ keys -> updater w' !! k = None) /\
    (forall k, k ∉ keys -> updater w' !! k = updater w !! k) /\
    (forall k, updater w !! k = None -> updater w' !! k = None) /\
    (forall h, tasks w' !! h = tasks w !! h \/
               tasks w' !! h = request_cancel <$> tasks w !! h) /\
    (forall k fs, k ∈ keys -> updater w !! k = Some fs ->
       tasks w' !! task fs = request_cancel <$> tasks w !! task fs) /\
    outbox w' = outbox w /\ requests w' = requests w.
Proof.
  induction keys as [|k0 keys IH]; intros w.
  - exists w. split; [done |].
    split; [intros k Hk; by apply elem_of_nil in Hk |].
    split; [done |]. split; [done |]. split; [by left |].
    split; [intros k fs Hk; by apply elem_of_nil in Hk | done].
  - cbn [stop_feeds]. mstep.
    destruct (updater w !! k0) as [fs0|] eqn:Hk0.
    + rewrite bool_decide_eq_true_2 by eauto.
      erewrite bind_ok; cycle 1.
      { mstep. erewrite bind_ok by apply task_cancel_run. cbv beta.
        eapply updater_del_run. wsimpl. exact Hk0. }
      cbv beta.
      match goal with |- context [stop_feeds self keys ?w1] =>
        destruct (IH w1) as (w' & -> & Hgone & Hout & Hnone & Htasks & Hcan & Ho & Hq)
      end.
      revert Hgone Hout Hnone Htasks Hcan Ho Hq. wsimpl.
      intros Hgone Hout Hnone Htasks Hcan Ho Hq.
      assert (Hstep : forall h,
        tasks w' !! h = request_cancel <$> tasks w !! h \/
        (h ≠ task fs0 /\ tasks w' !! h = tasks w !! h)).
      { intros h. destruct (Htasks h) as [-> | ->];
          rewrite list_lookup_alter; case_decide; subst.
        - by left.
        - by right.
        - left. destruct (tasks w !! task fs0); [| done].
          cbn. by rewrite request_cancel_idem.
        - by left. }
      exists w'. split; [done |].
      split; [| split; [| split; [| split; [| split; [| by split]]]]].
      * intros k Hk. apply elem_of_cons in Hk as [-> | Hk]; [| by apply Hgone].
        apply Hnone. by rewrite lookup_delete_eq.
      * intros k Hk. apply not_elem_of_cons in Hk as [Hne Hk].
        rewrite (Hout _ Hk). by rewrite lookup_delete_ne.
      * intros k Hk. apply Hnone.
        rewrite lookup_delete. case_decide; done.
      * intros h. destruct (Hstep h) as [-> | [_ ->]]; [by right | by left].
      * intros k fs Hk Hfs.
        destruct (Hstep (task fs)) as [H | [Hne H]]; [done |].
        destruct (decide (k = k0)) as [-> | Hkne]; [congruence |].
        apply elem_of_cons in Hk as [? | Hk]; [done |].
        rewrite (Hcan k fs Hk) by (by rewrite lookup_delete_ne).
        by rewrite list_lookup_alter_ne.
    + rewrite bool_decide_eq_false_2 by (by intros [? ?]). mstep.
      match goal with |- context [stop_feeds self keys ?w1] =>
        destruct (IH w1) as (w' & -> & Hgone & Hout & Hnone & Htasks & Hcan & Ho & Hq)
      end.
      revert Hgone Hout Hnone Htasks Hcan Ho Hq. wsimpl.
      intros Hgone Hout Hnone Htasks Hcan Ho Hq.
      exists w'. split; [done |].
      split; [| split; [| split; [done | split; [done | split; [| by split]]]]].
      * intros k Hk. apply elem_of_cons in Hk as [-> | Hk]; [| by apply Hgone].
        by apply Hnone.
      * intros k Hk. apply not_elem_of_cons in Hk as [_ Hk]. by apply Hout.
      * intros k fs Hk Hfs. apply elem_of_cons in Hk as [-> | Hk]; [congruence |].
        by apply (Hcan k fs).
Qed.

(** Where no key is tracked, the loop of [stop] only warns. *)
Lemma stop_feeds_untracked self keys : forall w,
  Forall (fun k => updater w !! k = None) keys ->
  stop_feeds self keys w =
  (Ok tt, with_log (log w ++ (log_not_running <$> keys)) w).
Proof.
  induction keys as [|k keys IH]; intros w Hall.
  - cbn [stop_feeds fmap list_fmap]. rewrite mret_run, app_nil_r.
    by destruct w.
  - apply Forall_cons in Hall as [Hk Hall].
    cbn [stop_feeds]. mstep. rewrite Hk.
    rewrite bool_decide_eq_false_2 by (by intros [? ?]).
    mstep. rewrite IH by exact Hall.
    wsimpl. rewrite <- app_assoc. reflexivity.
Qed.

(** Tasks of feeds that are not being stopped are not touched. *)
Lemma stop_feeds_other_tasks self keys : forall w h,
  (forall k fs, k ∈ keys -> updater w !! k = Some fs -> task fs ≠ h) ->
  tasks (world_of (stop_feeds self keys) w) !! h = tasks w !! h.
Proof.
  unfold world_of.
  induction keys as [|k0 keys IH]; intros w h Hh; [done |].
  cbn [stop_feeds]. mstep.
  destruct (updater w !! k0) as [fs0|] eqn:Hk0.
  - rewrite bool_decide_eq_true_2 by eauto.
    erewrite bind_ok; cycle 1.
    { mstep. erewrite bind_ok by apply task_cancel_run. cbv beta.
      eapply updater_del_run. wsimpl. exact Hk0. }
    cbv beta. rewrite IH.
    + wsimpl. apply list_lookup_alter_ne.
      apply (Hh k0 fs0); [apply elem_of_cons; by left | done].
    + wsimpl. intros k fs Hk Hfs.
      apply lookup_delete_Some in Hfs as [_ Hfs].
      apply (Hh k fs); [apply elem_of_cons; by right | done].
  - rewrite bool_decide_eq_false_2 by (by intros [? ?]). mstep.
    rewrite IH; [done |]. wsimpl. intros k fs Hk Hfs.
    apply (Hh k fs); [apply elem_of_cons; by right | done].
Qed.

(** X1.  [start] returns normally on any world and leaves every feed of
    the catalogue tracked.  A feed state that exists is kept as it is,
    cached entry included; keys outside the catalogue and the tasks
    already made are left alone; nothing is fetched or sent. *)
Theorem start_tracks_every_feed self w :
  let w' := world_of (start self) w in
  result_of (start self) w = Ok tt /\
  (forall k, k ∈ feed_keys -> is_Some (updater w' !! k)) /\
  (forall k fs, updater w !! k = Some fs -> updater w' !! k = Some fs) /\
  (forall k, k ∉ feed_keys -> updater w' !! k = updater w !! k) /\
  (forall h t, tasks w !! h = Some t -> tasks w' !! h = Some t) /\
  outbox w' = outbox w /\ requests w' = requests w.
Proof.
  unfold world_of, result_of, start.
  destruct (start_feeds_spec self feed_keys w)
    as (w' & -> & Hkeep & Hout & Hnew & Htasks & Ho & Hq).
  cbn [fst snd]. split; [done |]. split; [| done].
  intros k Hk. destruct (updater w !! k) as [fs|] eqn:E.
  - rewrite (Hkeep k fs E). by eexists.
  - destruct (Hnew k Hk E) as (h & -> & _). by eexists.
Qed.

Lemma start_tracks_every_feed_witness :
  updater w_cached !! "video" = Some fs_cached /\
  updater (world_of (start bot) w_cached) !! "video" = Some fs_cached.
Proof.
  split; [vm_compute; reflexivity |].
  pose proof (start_tracks_every_feed bot w_cached) as H. cbv zeta in H.
  destruct H as (_ & _ & H & _). apply H. vm_compute. reflexivity.
Defined.

(** X2.  A feed of the catalogue that is not tracked when [start] runs
    gets a state with timer 0 and nothing cached, whose task is a new
    task of the calling instance for that feed, neither cancelled nor
    finished. *)
Theorem start_gives_fresh_state self w k :
  k ∈ feed_keys -> updater w !! k = None ->
  let w' := world_of (start self) w in
  exists h,
    updater w' !! k = Some (mk_state h NewLock 0 None) /\
    length (tasks w) <= h /\
    tasks w' !! h = Some (mk_task self k false false).
Proof.
  intros Hk Hnone. unfold world_of, start.
  destruct (start_feeds_spec self feed_keys w) as (w' & -> & _ & _ & Hnew & _).
  exact (Hnew k Hk Hnone).
Qed.

Lemma start_gives_fresh_state_witness :
  ("podcast" ∈ feed_keys /\ updater world0 !! "podcast" = None) /\
  exists h,
    updater w_started !! "podcast" = Some (mk_state h NewLock 0 None) /\
    length (tasks world0) <= h /\
    tasks w_started !! h = Some (mk_task bot "podcast" false false).
Proof.
  assert (Hin : "podcast" ∈ feed_keys)
    by (apply elem_of_cons; right; apply elem_of_cons; by left).
  split; [split; [exact Hin | reflexivity] |].
  apply (start_gives_fresh_state bot world0 "podcast" Hin). reflexivity.
Defined.

(** The world [stop] leaves, in terms of the loop of [stop]. *)
Lemma stop_world self w :
  stop self w =
  (Ok tt, with_log (log (world_of (stop_feeds self feed_keys) w)
                    ++ [log_waiting])
            (world_of (stop_feeds self feed_keys) w)).
Proof.
  unfold stop, world_of.
  destruct (stop_feeds_spec self feed_keys w) as (w' & H & _).
  by rewrite (bind_ok _ _ _ _ _ H), H, logger_run.
Qed.

Lemma stop_untracks self w k :
  k ∈ feed_keys -> updater (world_of (stop self) w) !! k = None.
Proof.
  intros Hk. unfold world_of at 1. rewrite stop_world. wsimpl.
  unfold world_of.
  destruct (stop_feeds_spec self feed_keys w) as (w' & -> & Hgone & _).
  by apply Hgone.
Qed.

(** X3.  [stop] returns normally on any world and leaves no feed of the
    catalogue tracked; keys outside the catalogue keep their state, no
    task is added or removed, nothing is fetched or sent, and the last
    record logged is the "Waiting" one. *)
Theorem stop_untracks_every_feed self w :
  let w' := world_of (stop self) w in
  result_of (stop self) w = Ok tt /\
  (forall k, k ∈ feed_keys -> updater w' !! k = None) /\
  (forall k, k ∉ feed_keys -> updater w' !! k = updater w !! k) /\
  length (tasks w') = length (tasks w) /\
  outbox w' = outbox w /\ requests w' = requests w /\
  exists l, log w' = l ++ [log_waiting].
Proof.
  cbv zeta.
  destruct (stop_does_not_wait self w) as [Hok Hfin].
  apply (f_equal length) in Hfin. rewrite !length_fmap in Hfin.
  split; [exact Hok |]. split; [intros k; apply stop_untracks |].
  revert Hfin. unfold world_of. rewrite stop_world. cbn [snd]. wsimpl.
  unfold world_of.
  destruct (stop_feeds_spec self feed_keys w)
    as (w' & -> & _ & Hout & _ & _ & _ & Ho & Hq).
  cbn [snd]. intros Hfin.
  split; [exact Hout |]. split; [exact Hfin |].
  split; [exact Ho |]. split; [exact Hq |]. by eexists.
Qed.

Lemma stop_untracks_every_feed_witness :
  "video" ∈ feed_keys /\
  updater (world_of (stop bot) w_cached) !! "video" = None.
Proof.
  assert (Hin : "video" ∈ feed_keys) by (apply elem_of_cons; by left).
  split; [exact Hin |].
  pose proof (stop_untracks_every_feed bot w_cached) as H. cbv zeta in H.
  destruct H as (_ & H & _). apply H. exact Hin.
Defined.

(** X4.  [stop] asks the task of every tracked feed of the catalogue to
    cancel: a task that has not finished comes out marked, and still
    not finished.  A task that belongs to no tracked feed of the
    catalogue is not touched. *)
Theorem stop_requests_cancellation self w :
  let w' := world_of (stop self) w in
  (forall k fs t, k ∈ feed_keys -> updater w !! k = Some fs ->
     tasks w !! task fs = Some t -> finished t = false ->
     tasks w' !! task fs = Some (mk_task (owner t) (task_feed t) true false)) /\
  (forall h,
     (forall k fs, k ∈ feed_keys -> updater w !! k = Some fs -> task fs ≠ h) ->
     tasks w' !! h = tasks w !! h).
Proof.
  cbv zeta. split.
  - intros k fs t Hk Hfs Ht Hfin. unfold world_of, stop.
    destruct (stop_feeds_spec self feed_keys w)
      as (w' & H & _ & _ & _ & _ & Hcan & _).
    rewrite (bind_ok _ _ _ _ _ H), logger_run. wsimpl.
    rewrite (Hcan k fs Hk Hfs), Ht. cbn. unfold request_cancel.
    by rewrite Hfin.
  - intros h Hh.
    rewrite <- (stop_feeds_other_tasks self feed_keys w h Hh).
    unfold world_of at 1. by rewrite stop_world.
Qed.

Lemma stop_requests_cancellation_witness :
  ("video" ∈ feed_keys /\
   updater w_cached !! "video" = Some fs_cached /\
   tasks w_cached !! task fs_cached = Some (mk_task bot "video" false false) /\
   finished (mk_task bot "video" false false) = false) /\
  tasks (world_of (stop bot) w_cached) !! task fs_cached
  = Some (mk_task bot "video" true false).
Proof.
  assert (Hin : "video" ∈ feed_keys) by (apply elem_of_cons; by left).
  split; [split; [exact Hin | split; [vm_compute; reflexivity | by split]] |].
  apply (proj1 (stop_requests_cancellation bot w_cached)
           "video" fs_cached (mk_task bot "video" false false) Hin);
    [vm_compute; reflexivity | reflexivity | reflexivity].
Defined.

(** [stop] where no feed of the catalogue is tracked. *)
Lemma stop_untracked self w :
  Forall (fun k => updater w !! k = None) feed_keys ->
  stop self w =
  (Ok tt, with_log (log w ++ (log_not_running <$> feed_keys) ++ [log_waiting])
            w).
Proof.
  intros Hall. unfold stop.
  rewrite (bind_ok _ _ _ _ _ (stop_feeds_untracked self feed_keys _ Hall)).
  rewrite logger_run. wsimpl. by rewrite <- app_assoc.
Qed.

(** X5.  After [stop] on one instance, [stop] on any instance changes no
    feed state and no task: it logs one "not running" warning for each
    feed of the catalogue, then the "Waiting" record. *)
Theorem second_stop_only_warns (p1 p2 : LRRFeedParser) (w : World) :
  let w1 := world_of (stop p1) w in
  let w2 := world_of (stop p2) w1 in
  result_of (stop p2) w1 = Ok tt /\
  updater w2 = updater w1 /\
  tasks w2 = tasks w1 /\
  log w2 = log w1 ++ [log_not_running "video"; log_not_running "podcast";
                      log_waiting] /\
  outbox w2 = outbox w1 /\ requests w2 = requests w1.
Proof.
  cbv zeta.
  assert (Hall : Forall (fun k => updater (world_of (stop p1) w) !! k = None)
                        feed_keys).
  { apply Forall_forall. intros k Hk. by apply stop_untracks. }
  revert Hall. generalize (world_of (stop p1) w). intros w1 Hall.
  unfold result_of, world_of. rewrite (stop_untracked p2 w1 Hall).
  by repeat split.
Qed.

(** X6.  [stop] followed by [start], on any instances: every feed of the
    catalogue ends with timer 0, nothing cached, and a task made by the
    second call; what was cached before [stop] is gone. *)
Theorem restart_forgets_cache (p1 p2 : LRRFeedParser) (w : World) (k : string) :
  k ∈ feed_keys ->
  let w2 := world_of (start p2) (world_of (stop p1) w) in
  exists h,
    updater w2 !! k = Some (mk_state h NewLock 0 None) /\
    length (tasks w) <= h /\
    tasks w2 !! h = Some (mk_task p2 k false false).
Proof.
  intros Hk. cbv zeta.
  pose proof (stop_untracks p1 w k Hk) as Hnone.
  destruct (stop_does_not_wait p1 w) as [_ Hfin].
  apply (f_equal length) in Hfin. rewrite !length_fmap in Hfin.
  revert Hnone Hfin. generalize (world_of (stop p1) w). intros w1 Hnone Hfin.
  unfold world_of, start.
  destruct (start_feeds_spec p2 feed_keys w1) as (w' & -> & _ & _ & Hnew & _).
  destruct (Hnew k Hk Hnone) as (h & H1 & H2 & H3).
  exists h. split; [exact H1 |]. split; [lia | exact H3].
Qed.

Lemma restart_forgets_cache_witness :
  "video" ∈ feed_keys /\
  (latest <$> updater w_cached !! "video" = Some (Some (entry_of ep1)) /\
   exists h,
     updater (world_of (start bot) (world_of (stop bot) w_cached)) !! "video"
     = Some (mk_state h NewLock 0 None) /\
     length (tasks w_cached) <= h /\
     tasks (world_of (start bot) (world_of (stop bot) w_cached)) !! h
     = Some (mk_task bot "video" false false)).
Proof.
  assert (Hin : "video" ∈ feed_keys) by (apply elem_of_cons; by left).
  split; [exact Hin |]. split; [vm_compute; reflexivity |].
  exact (restart_forgets_cache bot bot w_cached "video" Hin).
Defined.

(** ** More on the refresh cycle *)

(** X9.  With the [announce] flag off, [update] hands nothing to the
    client, on any world and any response. *)
Theorem update_without_announce_is_silent self feed resp now w :
  outbox (world_of (update self feed false resp now) w) = outbox w.
Proof.
  unfold world_of.
  destruct (updater w !! feed) as [fs|] eqn:Hu;
    [destruct (rss_lookup feed) as [d|] eqn:Hr |].
  - destruct resp as [|[|e es]|x];
      [| | | rewrite (update_escapes _ _ _ _ _ _ _ _ Hu Hr); by wsimpl].
    + rewrite (update_client_error _ _ _ _ _ _ _ Hu Hr).
      unfold refreshed. wsimpl. by rewrite app_nil_r.
    + rewrite (update_no_entries _ _ _ _ _ _ _ Hu Hr).
      unfold refreshed. wsimpl. by rewrite app_nil_r.
    + destruct (latest fs) as [old|] eqn:Hl.
      * destruct (decide (Entry.url old = guid e)) as [He|He].
        -- rewrite (update_same_url _ _ _ _ _ _ _ _ _ _ Hu Hr Hl He).
           unfold refreshed. wsimpl. by rewrite app_nil_r.
        -- rewrite (update_new_url_quiet _ _ _ _ _ _ _ _ _ Hu Hr Hl He).
           unfold refreshed. wsimpl. by rewrite app_nil_r.
      * rewrite (update_first_entry _ _ _ _ _ _ _ _ _ Hu Hr Hl).
        unfold refreshed. wsimpl. by rewrite app_nil_r.
  - unfold update. rewrite bind_run, in_updater_run, untracked_guard;
      [done | by right].
  - unfold update. rewrite bind_run, in_updater_run, untracked_guard;
      [done | by left].
Qed.

(** X10.  [update] hands at most one message to the client, and only in
    one case: the flag is on, the feed is tracked with an entry cached,
    the fetch returned an entry, and its "url" is not the cached one.
    The message is then a broadcast about the fetched entry. *)
Theorem update_sends_only_on_change self feed ann resp now w :
  outbox (world_of (update self feed ann resp now) w) ≠ outbox w ->
  ann = true /\
  exists fs d old e es,
    updater w !! feed = Some fs /\ rss_lookup feed = Some d /\
    latest fs = Some old /\ resp = Body (e :: es) /\
    Entry.url old ≠ guid e /\
    outbox (world_of (update self feed ann resp now) w) =
    outbox w ++ [(client self, Announce (entry_msg d (entry_of e)))].
Proof.
  unfold world_of.
  destruct (updater w !! feed) as [fs|] eqn:Hu;
    [destruct (rss_lookup feed) as [d|] eqn:Hr |].
  - destruct resp as [|[|e es]|x];
      [| | | rewrite (update_escapes _ _ _ _ _ _ _ _ Hu Hr); by wsimpl].
    + rewrite (update_client_error _ _ _ _ _ _ _ Hu Hr).
      unfold refreshed. wsimpl. by rewrite app_nil_r.
    + rewrite (update_no_entries _ _ _ _ _ _ _ Hu Hr).
      unfold refreshed. wsimpl. by rewrite app_nil_r.
    + destruct (latest fs) as [old|] eqn:Hl.
      * destruct (decide (Entry.url old = guid e)) as [He|He].
        -- rewrite (update_same_url _ _ _ _ _ _ _ _ _ _ Hu Hr Hl He).
           unfold refreshed. wsimpl. by rewrite app_nil_r.
        -- destruct ann.
           ++ rewrite (update_new_url_announce _ _ _ _ _ _ _ _ _ Hu Hr Hl He).
              unfold refreshed. wsimpl. intros _. split; [done |].
              by exists fs, d, old, e, es.
           ++ rewrite (update_new_url_quiet _ _ _ _ _ _ _ _ _ Hu Hr Hl He).
              unfold refreshed. wsimpl. by rewrite app_nil_r.
      * rewrite (update_first_entry _ _ _ _ _ _ _ _ _ Hu Hr Hl).
        unfold refreshed. wsimpl. by rewrite app_nil_r.
  - unfold update. rewrite bind_run, in_updater_run, untracked_guard;
      [done | by right].
  - unfold update. rewrite bind_run, in_updater_run, untracked_guard;
      [done | by left].
Qed.

Lemma update_sends_only_on_change_witness :
  outbox (world_of (update bot "video" true (Body [ep2]) 20) w_cached)
  ≠ outbox w_cached /\
  exists fs d old e es,
    updater w_cached !! "video" = Some fs /\ rss_lookup "video" = Some d /\
    latest fs = Some old /\ Body [ep2] = Body (e :: es) /\
    Entry.url old ≠ guid e /\
    outbox (world_of (update bot "video" true (Body [ep2]) 20) w_cached) =
    outbox w_cached ++ [(client bot, Announce (entry_msg d (entry_of e)))].
Proof.
  assert (Hne : outbox (world_of (update bot "video" true (Body [ep2]) 20)
                          w_cached) ≠ outbox w_cached)
    by (vm_compute; discriminate).
  split; [exact Hne |].
  exact (proj2 (update_sends_only_on_change bot "video" true (Body [ep2]) 20
                  w_cached Hne)).
Defined.

(** X11.  [update] never empties the cache: a feed that has an entry
    cached still has one after any cycle, whatever the response. *)
Theorem update_never_clears_cache self feed ann resp now fs old w :
  updater w !! feed = Some fs -> latest fs = Some old ->
  exists fs' cur,
    updater (world_of (update self feed ann resp now) w) !! feed = Some fs' /\
    latest fs' = Some cur.
Proof.
  intros Hu Hl. unfold world_of.
  destruct (rss_lookup feed) as [d|] eqn:Hr.
  - destruct resp as [|[|e es]|x];
      [| | | rewrite (update_escapes _ _ _ _ _ _ _ _ Hu Hr); wsimpl;
             by exists fs, old].
    + rewrite (update_client_error _ _ _ _ _ _ _ Hu Hr).
      unfold refreshed. wsimpl. rewrite lookup_insert_eq, Hl. by eexists _, _.
    + rewrite (update_no_entries _ _ _ _ _ _ _ Hu Hr).
      unfold refreshed. wsimpl. rewrite lookup_insert_eq, Hl. by eexists _, _.
    + destruct (decide (Entry.url old = guid e)) as [He|He].
      * rewrite (update_same_url _ _ _ _ _ _ _ _ _ _ Hu Hr Hl He).
        unfold refreshed. wsimpl. rewrite lookup_insert_eq. by eexists _, _.
      * destruct ann.
        -- rewrite (update_new_url_announce _ _ _ _ _ _ _ _ _ Hu Hr Hl He).
           unfold refreshed. wsimpl. rewrite lookup_insert_eq. by eexists _, _.
        -- rewrite (update_new_url_quiet _ _ _ _ _ _ _ _ _ Hu Hr Hl He).
           unfold refreshed. wsimpl. rewrite lookup_insert_eq. by eexists _, _.
  - unfold update. rewrite bind_run, in_updater_run, untracked_guard;
      [| by right].
    wsimpl. by exists fs, old.
Qed.

Lemma update_never_clears_cache_witness :
  (updater w_cached !! "video" = Some fs_cached /\
   latest fs_cached = Some (entry_of ep1)) /\
  exists fs' cur,
    updater (world_of (update bot "video" true (Body []) 20) w_cached)
      !! "video" = Some fs' /\
    latest fs' = Some cur.
Proof.
  split; [split; [vm_compute; reflexivity | reflexivity] |].
  apply (update_never_clears_cache bot "video" true (Body []) 20 fs_cached
           (entry_of ep1) w_cached);
    [vm_compute; reflexivity | reflexivity].
Defined.

(** X12.  On a tracked feed of the catalogue, a cycle whose fetch
    returns an entry leaves exactly that entry cached, whatever was
    cached before and whatever the flag; its one request went to the
    url the catalogue gives for the feed. *)
Theorem successful_fetch_is_cached self feed ann e es now fs d w :
  updater w !! feed = Some fs -> rss_lookup feed = Some d ->
  let w' := world_of (update self feed ann (Body (e :: es)) now) w in
  updater w' !! feed =
    Some (mk_state (task fs) (lock fs) now (Some (entry_of e))) /\
  requests w' = requests w ++ [Feed.url d].
Proof.
  intros Hu Hr. unfold world_of.
  destruct (latest fs) as [old|] eqn:Hl.
  - destruct (decide (Entry.url old = guid e)) as [He|He].
    + rewrite (update_same_url _ _ _ _ _ _ _ _ _ _ Hu Hr Hl He).
      unfold refreshed. wsimpl. by rewrite lookup_insert_eq.
    + destruct ann.
      * rewrite (update_new_url_announce _ _ _ _ _ _ _ _ _ Hu Hr Hl He).
        unfold refreshed. wsimpl. by rewrite lookup_insert_eq.
      * rewrite (update_new_url_quiet _ _ _ _ _ _ _ _ _ Hu Hr Hl He).
        unfold refreshed. wsimpl. by rewrite lookup_insert_eq.
  - rewrite (update_first_entry _ _ _ _ _ _ _ _ _ Hu Hr Hl).
    unfold refreshed. wsimpl. by rewrite lookup_insert_eq.
Qed.

Lemma successful_fetch_is_cached_witness :
  (updater w_cached !! "video" = Some fs_cached /\
   rss_lookup "video" = Some video) /\
  updater (world_of (update bot "video" false (Body [ep2; ep1]) 20) w_cached)
    !! "video"
  = Some (mk_state 0 NewLock 20 (Some (entry_of ep2))).
Proof.
  split; [split; [vm_compute; reflexivity | reflexivity] |].
  apply (successful_fetch_is_cached bot "video" false ep2 [ep1] 20 fs_cached
           video w_cached);
    [vm_compute; reflexivity | reflexivity].
Defined.

(** X13.  On a tracked feed of the catalogue, two cycles in a row whose
    fetches return entries with the same "url": the second hands
    nothing to the client, whatever was cached at first and whatever
    the flags. *)
Theorem repeated_entry_is_silent self feed fs d w
    ann1 e1 es1 now1 ann2 e2 es2 now2 :
  updater w !! feed = Some fs -> rss_lookup feed = Some d ->
  guid e2 = guid e1 ->
  let w1 := world_of (update self feed ann1 (Body (e1 :: es1)) now1) w in
  let w2 := world_of (update self feed ann2 (Body (e2 :: es2)) now2) w1 in
  outbox w2 = outbox w1.
Proof.
  intros Hu Hr Hg. cbv zeta.
  assert (H1 : updater (world_of (update self feed ann1 (Body (e1 :: es1)) now1)
                          w) !! feed
               = Some (mk_state (task fs) (lock fs) now1 (Some (entry_of e1)))).
  { unfold world_of.
    destruct (latest fs) as [old|] eqn:Hl.
    - destruct (decide (Entry.url old = guid e1)) as [He|He].
      + rewrite (update_same_url _ _ _ _ _ _ _ _ _ _ Hu Hr Hl He).
        unfold refreshed. wsimpl. by rewrite lookup_insert_eq.
      + destruct ann1.
        * rewrite (update_new_url_announce _ _ _ _ _ _ _ _ _ Hu Hr Hl He).
          unfold refreshed. wsimpl. by rewrite lookup_insert_eq.
        * rewrite (update_new_url_quiet _ _ _ _ _ _ _ _ _ Hu Hr Hl He).
          unfold refreshed. wsimpl. by rewrite lookup_insert_eq.
    - rewrite (update_first_entry _ _ _ _ _ _ _ _ _ Hu Hr Hl).
      unfold refreshed. wsimpl. by rewrite lookup_insert_eq. }
  revert H1. generalize (world_of (update self feed ann1 (Body (e1 :: es1)) now1) w).
  intros w1 H1. unfold world_of.
  rewrite (update_same_url self feed ann2 e2 es2 now2 _ d (entry_of e1) w1 H1 Hr
             eq_refl (eq_sym Hg)).
  unfold refreshed. wsimpl. by rewrite app_nil_r.
Qed.

Lemma repeated_entry_is_silent_witness :
  (updater w_cached !! "video" = Some fs_cached /\
   rss_lookup "video" = Some video /\
   guid (mk_raw "v2" "Ep2, retitled" t0) = guid ep2) /\
  let w1 := world_of (update bot "video" true (Body [ep2]) 20) w_cached in
  outbox (world_of (update bot "video" true
                      (Body [mk_raw "v2" "Ep2, retitled" t0]) 30) w1)
  = outbox w1.
Proof.
  split; [split; [vm_compute; reflexivity | split; reflexivity] |].
  apply (repeated_entry_is_silent bot "video" fs_cached video w_cached
           true ep2 [] 20 true (mk_raw "v2" "Ep2, retitled" t0) [] 30);
    [vm_compute; reflexivity | reflexivity | reflexivity].
Defined.

(** X14.  Only the last entry seen is remembered.  With an entry cached,
    a cycle that fetches another entry and a later cycle that fetches
    the first one again each hand one broadcast to the client: an entry
    that comes back is announced again. *)
Theorem returning_entry_is_announced_again self feed fs d old w
    e2 es2 now2 e3 es3 now3 :
  updater w !! feed = Some fs -> rss_lookup feed = Some d ->
  latest fs = Some old ->
  Entry.url old ≠ guid e2 -> guid e3 = Entry.url old ->
  let w2 := world_of (update self feed true (Body (e2 :: es2)) now2) w in
  let w3 := world_of (update self feed true (Body (e3 :: es3)) now3) w2 in
  outbox w3 =
  outbox w ++ [(client self, Announce (entry_msg d (entry_of e2)));
               (client self, Announce (entry_msg d (entry_of e3)))].
Proof.
  intros Hu Hr Hl Hne Hback. cbv zeta. unfold world_of.
  rewrite (update_new_url_announce _ _ _ _ _ _ _ _ _ Hu Hr Hl Hne). cbn [snd].
  erewrite (update_new_url_announce self feed e3 es3 now3 _ d (entry_of e2));
    [| unfold refreshed; wsimpl; apply lookup_insert_eq
     | exact Hr | reflexivity | cbn; congruence ].
  unfold refreshed. wsimpl. by rewrite <- app_assoc.
Qed.

Lemma returning_entry_is_announced_again_witness :
  (updater w_cached !! "video" = Some fs_cached /\
   rss_lookup "video" = Some video /\
   latest fs_cached = Some (entry_of ep1) /\
   Entry.url (entry_of ep1) ≠ guid ep2 /\
   guid ep1 = Entry.url (entry_of ep1)) /\
  outbox (world_of (update bot "video" true (Body [ep1]) 30)
            (world_of (update bot "video" true (Body [ep2]) 20) w_cached))
  = outbox w_cached ++
    [(7, Announce "LRR Video Feed: Ep2 (v2) [2015-01-01T00:05:00Z]");
     (7, Announce "LRR Video Feed: Ep1 (v1) [2015-01-01T00:00:00Z]")].
Proof.
  assert (Hne : Entry.url (entry_of ep1) ≠ guid ep2) by discriminate.
  split.
  - split; [vm_compute; reflexivity |]. by repeat split.
  - apply (returning_entry_is_announced_again bot "video" fs_cached video
             (entry_of ep1) w_cached ep2 [] 20 ep1 [] 30);
      [vm_compute; reflexivity | reflexivity | reflexivity | exact Hne
      | reflexivity].
Defined.

(** ** More on [announce] *)

(** X15.  [announce] on a feed id that is not tracked, or not in the
    catalogue, logs one warning and returns normally; nothing is sent,
    whatever the target. *)
Theorem announce_unknown_feed self feed target w :
  updater w !! feed = None \/ rss_lookup feed = None ->
  let w' := world_of (announce self feed target) w in
  result_of (announce self feed target) w = Ok tt /\
  log w' = log w ++ [mk_log WARNING
                       ("Cannot announce unknown RSS feed " +:+ feed +:+ ".")] /\
  outbox w' = outbox w /\ requests w' = requests w /\
  updater w' = updater w /\ tasks w' = tasks w.
Proof.
  intros H. unfold world_of, result_of, announce.
  rewrite bind_run, in_updater_run, (untracked_guard _ _ H).
  done.
Qed.

Lemma announce_unknown_feed_witness :
  (updater (world_of (stop bot) w_cached) !! "video" = None \/
   rss_lookup "video" = None) /\
  outbox (world_of (announce bot "video" (Some "nick"))
            (world_of (stop bot) w_cached))
  = outbox (world_of (stop bot) w_cached).
Proof.
  assert (H : updater (world_of (stop bot) w_cached) !! "video" = None)
    by (vm_compute; reflexivity).
  split; [by left |].
  apply (announce_unknown_feed bot "video" (Some "nick")
           (world_of (stop bot) w_cached)).
  by left.
Defined.

(** ** More on the polling loop *)

(** X17.  The polling loop has no guard of its own: on a feed that is
    not tracked its first iteration raises [KeyError], after the
    "Starting" record and before anything is fetched; the "cancelled"
    record is not logged. *)
Theorem auto_update_untracked_raises self feed tk sched w :
  updater w !! feed = None ->
  auto_update self feed (tk :: sched) w =
  (Raise (KeyError feed),
   with_log (log w ++ [mk_log INFO ("Starting automatic update for RSS feed "
                                    +:+ feed +:+ ".")]) w).
Proof.
  intros Hu. unfold auto_update. mstep. unfold except_cancelled.
  cbn [auto_update_loop]. unfold auto_update_iter.
  rewrite !bind_run. unfold updater_get. wsimpl. by rewrite Hu.
Qed.

Lemma auto_update_untracked_raises_witness :
  updater (world_of (stop bot) w_cached) !! "video" = None /\
  result_of (auto_update bot "video" [mk_tick 400 (Body [ep2]) 401])
            (world_of (stop bot) w_cached)
  = Raise (KeyError "video").
Proof.
  assert (H : updater (world_of (stop bot) w_cached) !! "video" = None)
    by (vm_compute; reflexivity).
  split; [exact H |]. unfold result_of.
  by rewrite (auto_update_untracked_raises bot "video"
                (mk_tick 400 (Body [ep2]) 401) [] _ H).
Defined.

Lemma assoc_keys {A} (k : string) (l : list (string * A)) v :
  assoc k l = Some v -> k ∈ l.*1.
Proof.
  induction l as [|[k' v'] l IH]; [done |].
  cbn [assoc]. case_decide as Hk.
  - intros _. subst. apply elem_of_cons. by left.
  - intros H. apply elem_of_cons. right. by apply IH.
Qed.

(** X19.  The first poll after [start] is silent.  A feed of the
    catalogue that [start] begins to track has timer 0, so an iteration
    of its loop at a clock reading of [delay] or more runs a cycle at
    once; if the fetch returns an entry, the entry is cached and
    nothing is handed to the client. *)
Theorem first_poll_after_start_is_silent self k d w tk e es :
  rss_lookup k = Some d -> updater w !! k = None ->
  (delay self <= tick_now tk)%Q -> tick_resp tk = Body (e :: es) ->
  let w1 := world_of (start self) w in
  let w2 := world_of (auto_update_iter self k tk) w1 in
  result_of (auto_update_iter self k tk) w1 = Ok Refreshed /\
  latest <$> updater w2 !! k = Some (Some (entry_of e)) /\
  outbox w2 = outbox w.
Proof.
  intros Hr Hnone Hdue Hresp. cbv zeta.
  assert (Hk : k ∈ feed_keys) by (by apply (assoc_keys k RSS_FEEDS d)).
  assert (Hst : exists h,
            updater (world_of (start self) w) !! k = Some (fresh_state h) /\
            outbox (world_of (start self) w) = outbox w).
  { unfold world_of, start.
    destruct (start_feeds_spec self feed_keys w)
      as (w1 & -> & _ & _ & Hnew & _ & Ho & _).
    destruct (Hnew k Hk Hnone) as (h & Hu & _). by exists h. }
  destruct Hst as (h & Hu & Ho). revert Hu Ho.
  generalize (world_of (start self) w). intros w1 Hu Ho.
  unfold result_of, world_of.
  rewrite (auto_update_iter_refreshes self k tk (fresh_state h) w1 Hu).
  - rewrite Hresp.
    rewrite (bind_ok _ _ _ _ _
               (update_first_entry self k true e es (tick_after tk)
                  (fresh_state h) d w1 Hu Hr eq_refl)).
    rewrite mret_run. unfold refreshed. cbn [fst snd]. wsimpl.
    rewrite lookup_insert_eq, app_nil_r. by repeat split.
  - cbn [last fresh_state]. by rewrite Qplus_0_l.
Qed.

Lemma first_poll_after_start_is_silent_witness :
  (rss_lookup "video" = Some video /\ updater world0 !! "video" = None /\
   (delay bot <= tick_now (mk_tick 5000 (Body [ep2]) 5001))%Q /\
   tick_resp (mk_tick 5000 (Body [ep2]) 5001) = Body (ep2 :: [])) /\
  outbox (world_of (auto_update_iter bot "video" (mk_tick 5000 (Body [ep2]) 5001))
            (world_of (start bot) world0))
  = outbox world0.
Proof.
  assert (Hd : (delay bot <= tick_now (mk_tick 5000 (Body [ep2]) 5001))%Q)
    by (vm_compute; discriminate).
  split; [split; [reflexivity | split; [reflexivity | split; [exact Hd | reflexivity]]] |].
  apply (first_poll_after_start_is_silent bot "video" video world0
           (mk_tick 5000 (Body [ep2]) 5001) ep2 []);
    [reflexivity | reflexivity | exact Hd | reflexivity].
Defined.

(** ** The fetch, whatever it meets *)



(** X8.  On every world and whatever the fetch meets, a fetch that
    raises included, [update] touches no task, changes the state of no
    other feed, and neither adds nor removes a key of the dictionary. *)
Theorem update_leaves_other_feeds self feed ann resp now w :
  let w' := world_of (update self feed ann resp now) w in
  tasks w' = tasks w /\
  (forall feed', feed' ≠ feed -> updater w' !! feed' = updater w !! feed') /\
  (is_Some (updater w' !! feed) <-> is_Some (updater w !! feed)).
Proof.
  unfold world_of.
  destruct (updater w !! feed) as [fs|] eqn:Hu;
    [destruct (rss_lookup feed) as [d|] eqn:Hr |].
  - assert (Hc : (exists x, resp = Escapes x) \/ (forall x, resp ≠ Escapes x))
      by (destruct resp; [by right | by right | left; by eexists]).
    destruct Hc as [[x ->] | Hret].
    + rewrite (update_escapes _ _ _ _ _ _ _ _ Hu Hr). wsimpl.
      split; [done |]. split; [done |].
    by rewrite ?Hu.
    + destruct (update_returns self feed ann resp now fs d w Hu Hr Hret)
        as (l' & logs & out & ->).
      unfold refreshed. wsimpl. split; [done |]. split.
      * intros f' Hne. by rewrite lookup_insert_ne.
      * rewrite lookup_insert_eq. split; by eexists.
  - unfold update. rewrite bind_run, in_updater_run, untracked_guard;
      [| by right]. rewrite logger_run. wsimpl.
    split; [done |]. split; [done |].
    by rewrite ?Hu.
  - unfold update. rewrite bind_run, in_updater_run, untracked_guard;
      [| by left]. rewrite logger_run. wsimpl.
    split; [done |]. split; [done |].
    by rewrite ?Hu.
Qed.

Lemma update_leaves_other_feeds_witness :
  "podcast" ≠ "video" /\
  updater (world_of (update bot "video" true (Body [ep2]) 20) w_cached)
    !! "podcast"
  = updater w_cached !! "podcast".
Proof.
  assert (Hne : "podcast" ≠ "video") by discriminate.
  split; [exact Hne |].
  pose proof (update_leaves_other_feeds bot "video" true (Body [ep2]) 20
                w_cached) as H.
  cbv zeta in H. destruct H as (_ & H & _). exact (H "podcast" Hne).
Defined.

(** ** The polling loop and the lock *)



(** ** The polling task, from start to end *)




(** X20.  When the fetch of a cycle run by the polling loop raises,
    the request has gone out and no feed state has changed, the timer
    no more than the rest.  [CancelledError] ends the task normally,
    with "was cancelled" logged; any other exception ends the task with
    that exception, and "was cancelled" is not logged. *)
Theorem raising_fetch_ends_the_task self feed fs d tk x sched w :
  updater w !! feed = Some fs -> rss_lookup feed = Some d ->
  (last fs + delay self <= tick_now tk)%Q -> tick_resp tk = Escapes x ->
  let w1 :=
    mk_world (updater w) (tasks w)
      (log w ++ [mk_log INFO ("Starting automatic update for RSS feed "
                              +:+ feed +:+ ".");
                 log_running feed; log_retrieving (Feed.url d)])
      (outbox w) (requests w ++ [Feed.url d]) in
  (x ≠ CancelledError ->
     auto_update self feed (tk :: sched) w = (Raise x, w1)) /\
  (x = CancelledError ->
     auto_update self feed (tk :: sched) w =
     (Ok tt, with_log (log w1 ++ [mk_log INFO
               ("Automatic update for RSS feed " +:+ feed
                +:+ " was cancelled.")]) w1)).
Proof.
  intros Hu Hr Hdue Hresp w1.
  set (w0 := with_log (log w ++ [mk_log INFO
         ("Starting automatic update for RSS feed " +:+ feed +:+ ".")]) w).
  assert (Hloop : forall B (k : list LoopAction -> M B),
    (auto_update_loop self feed (tk :: sched) ≫= k) w0 = (Raise x, w1)).
  { intros B k. cbn [auto_update_loop].
    apply bind_raise, bind_raise.
    rewrite (auto_update_iter_refreshes self feed tk fs w0 Hu Hdue), Hresp.
    apply bind_raise.
    rewrite (update_escapes self feed true x (tick_after tk) fs d w0 Hu Hr).
    subst w1 w0. wsimpl. by rewrite <- app_assoc. }
  unfold auto_update. mstep. unfold except_cancelled. fold w0.
  rewrite Hloop. split.
  - intros Hx. by destruct x.
  - intros ->. by rewrite logger_run.
Qed.

Lemma raising_fetch_ends_the_task_witness :
  (updater w_cached !! "video" = Some fs_cached /\
   rss_lookup "video" = Some video /\
   (last fs_cached + delay bot <= tick_now (mk_tick 400 (Escapes CancelledError) 0))%Q /\
   tick_resp (mk_tick 400 (Escapes CancelledError) 0) = Escapes CancelledError) /\
  result_of (auto_update bot "video" [mk_tick 400 (Escapes CancelledError) 0])
            w_cached = Ok tt /\
  updater (world_of (auto_update bot "video"
                       [mk_tick 400 (Escapes CancelledError) 0]) w_cached)
  = updater w_cached.
Proof.
  assert (Hdue : (last fs_cached + delay bot
                  <= tick_now (mk_tick 400 (Escapes CancelledError) 0))%Q)
    by (vm_compute; discriminate).
  split; [split; [vm_compute; reflexivity | by repeat split] |].
  destruct (raising_fetch_ends_the_task bot "video" fs_cached video
              (mk_tick 400 (Escapes CancelledError) 0) CancelledError []
              w_cached) as [_ H];
    [vm_compute; reflexivity | reflexivity | exact Hdue | reflexivity |].
  unfold result_of, world_of. by rewrite (H eq_refl).
Defined.
